(** * gildas-ai: face extraction pipeline, descriptor distance and the
      local inception cache

    A shallow embedding of [store.go] (package [gildasai]: [Above],
    [Landmarks.PointsOnImage], [Landmarks.Center], [square], [insideOf],
    [Descriptors.DistanceTo], [Extractor.Extract],
    [Extractor.ExtractLandmarks], and the drawing of landmarks with
    [Landmarks.DrawOnImage], [Landmarks.DrawOnFullImage] and
    [drawPoint]) and of the command-line tool: its cache
    ([LocalCache.Inception], [cacheName], [readCache], [saveCache]) and
    its index of a folder ([inspectFolder], [find]).

    Conventions.
    - Go's [int] is the 64-bit two's complement integer: a [Z] together
      with the wrap-around [Int.wrap] applied after every addition and
      subtraction.
    - Go's [float32] and [float64] are the IEEE 754 binary32 and binary64
      formats of [SpecFloat], rounding to nearest even, every operation
      rounded on its own (no fused multiply-add).
    - A Go function returning [(v, err)] is a pair [(v, option error)];
      [nil] and empty slices are both the empty list.
    - A run-time panic (index out of range, nil dereference) is the
      outcome [Panicked].
    - What the code prints on the console is left out, and so is the
      memory an image occupies: [image.NewRGBA] is its documented
      contract, an image with the given bounds, without the panic of an
      allocation that is negative or too large. *)

From Stdlib Require Import ZArith List Bool Lia String Ascii.
From Stdlib Require Import Floats.SpecFloat.
From stdpp Require Import base option list strings pretty gmap.

Local Open Scope Z_scope.

(** ** Go's [int] *)

Module Int.

Definition modulus : Z := 2 ^ 64.
Definition half_modulus : Z := 2 ^ 63.
Definition min_int : Z := - half_modulus.
Definition max_int : Z := half_modulus - 1.

(** The value of a mathematical integer once stored in an [int]. *)
Definition wrap (z : Z) : Z := (z + half_modulus) mod modulus - half_modulus.

Definition add (a b : Z) : Z := wrap (a + b).
Definition sub (a b : Z) : Z := wrap (a - b).

(** Go's [/] truncates toward zero. *)
Definition quo (a b : Z) : Z := wrap (Z.quot a b).

Definition in_range (z : Z) : Prop := min_int <= z <= max_int.

End Int.

(** ** Package [image]: points, rectangles and images *)

Module image.

Record Point : Type := mkPoint { X : Z; Y : Z }.

Record Rectangle : Type := mkRect { Min : Point; Max : Point }.

(** [Rectangle.Dx] and [Rectangle.Dy]. *)
Definition Dx (r : Rectangle) : Z := Int.sub (X (Max r)) (X (Min r)).
Definition Dy (r : Rectangle) : Z := Int.sub (Y (Max r)) (Y (Min r)).

(** [Point.In]: a rectangle contains its minimum edges and excludes its
    maximum edges. *)
Definition PointIn (p : Point) (r : Rectangle) : bool :=
  (X (Min r) <=? X p) && (X p <? X (Max r)) &&
  (Y (Min r) <=? Y p) && (Y p <? Y (Max r)).

(** A pixel of an RGBA image: four 8-bit channels. *)
Record RGBA : Type := mkRGBA { R : Z; G : Z; B : Z; A : Z }.

Definition transparent : RGBA := mkRGBA 0 0 0 0.

(** An [image.Image] as the pipeline sees it: its bounds and its pixels.
    Colours are kept in the RGBA model throughout. *)
Record Image : Type := mkImage { Bounds : Rectangle; At : Z -> Z -> RGBA }.

(** [image.NewRGBA]: a blank image with the given bounds.  The memory the
    pixels take is not part of this model: for a rectangle with a negative
    side, or with more pixels than can be allocated, the Go function
    panics or the program runs out of memory, depending on the version of
    Go and on the machine.  The general statements below that conclude
    that a call returns do so for the bounds of an image the caller
    holds or for a detection's box that passed the size test, or they
    take the return of [Center] as a hypothesis. *)
Definition NewRGBA (r : Rectangle) : Image :=
  mkImage r (fun _ _ => transparent).

End image.

Import image.

(** ** Package [draw] *)

Module draw.

(** [draw.Draw dst r src sp draw.Src]: the pixels of [src] starting at
    [sp] replace the pixels of [dst] over [r], clipped to the bounds of
    both images. *)
Definition Draw (dst : Image) (r : Rectangle) (src : Image) (sp : Point) : Image :=
  mkImage (Bounds dst)
    (fun x y =>
       let sx := Int.add (Int.sub x (X (Min r))) (X sp) in
       let sy := Int.add (Int.sub y (Y (Min r))) (Y sp) in
       if PointIn (mkPoint x y) r && PointIn (mkPoint x y) (Bounds dst)
          && PointIn (mkPoint sx sy) (Bounds src)
       then At src sx sy
       else At dst x y).

End draw.

(** ** [square] and [insideOf] *)

Definition square (rect : Rectangle) : Rectangle :=
  let width := Int.sub (X (Max rect)) (X (Min rect)) in
  let height := Int.sub (Y (Max rect)) (Y (Min rect)) in
  if height >? width then
    let left := Int.quo (Int.sub height width) 2 in
    let right := Int.sub (Int.sub height width) left in
    mkRect (mkPoint (Int.sub (X (Min rect)) left) (Y (Min rect)))
           (mkPoint (Int.add (X (Max rect)) right) (Y (Max rect)))
  else if width >? height then
    let top := Int.quo (Int.sub width height) 2 in
    let bottom := Int.sub (Int.sub width height) top in
    mkRect (mkPoint (X (Min rect)) (Int.sub (Y (Min rect)) top))
           (mkPoint (X (Max rect)) (Int.add (Y (Max rect)) bottom))
  else rect.

(** The four [if] statements of [insideOf], in the order of the source;
    each one updates the local copy [rect]. *)
Definition insideOf (rect bounds : Rectangle) : Rectangle :=
  let rect :=
    if X (Min bounds) >? X (Min rect) then
      mkRect (mkPoint (X (Min bounds)) (Y (Min rect)))
             (mkPoint (Int.add (X (Max rect)) (Int.sub (X (Min bounds)) (X (Min rect))))
                      (Y (Max rect)))
    else rect in
  let rect :=
    if Y (Min bounds) >? Y (Min rect) then
      mkRect (mkPoint (X (Min rect)) (Y (Min bounds)))
             (mkPoint (X (Max rect))
                      (Int.add (Y (Max rect)) (Int.sub (Y (Min bounds)) (Y (Min rect)))))
    else rect in
  let rect :=
    if X (Max rect) >? X (Max bounds) then
      mkRect (mkPoint (Int.sub (X (Min rect)) (Int.sub (X (Max rect)) (X (Max bounds))))
                      (Y (Min rect)))
             (mkPoint (X (Max bounds)) (Y (Max rect)))
    else rect in
  let rect :=
    if Y (Max rect) >? Y (Max bounds) then
      mkRect (mkPoint (X (Min rect))
                      (Int.sub (Y (Min rect)) (Int.sub (Y (Max rect)) (Y (Max bounds)))))
             (mkPoint (X (Max rect)) (Y (Max bounds)))
    else rect in
  rect.

(** Containment of a rectangle in another, edge by edge. *)
Definition contained (r s : Rectangle) : Prop :=
  X (Min s) <= X (Min r) /\ X (Max r) <= X (Max s) /\
  Y (Min s) <= Y (Min r) /\ Y (Max r) <= Y (Max s).

(** One axis of [insideOf]: the interval is first pushed up to the lower
    bound, then pulled down to the upper bound.  Auxiliary, for the
    proofs: [insideOf] clamps the two axes independently. *)
Definition clamp (bmin bmax : Z) (iv : Z * Z) : Z * Z :=
  let '(lo, hi) := iv in
  let '(lo, hi) :=
    if bmin >? lo then (bmin, Int.add hi (Int.sub bmin lo)) else (lo, hi) in
  if hi >? bmax then (Int.sub lo (Int.sub hi bmax), bmax) else (lo, hi).

(** Coordinates far from the ends of the [int] range, as those of any
    image that fits in memory. *)
Definition small (z : Z) : Prop := - 2 ^ 61 <= z < 2 ^ 61.

Definition small_rect (r : Rectangle) : Prop :=
  small (X (Min r)) /\ small (Y (Min r)) /\ small (X (Max r)) /\ small (Y (Max r)).

Definition well_formed (r : Rectangle) : Prop :=
  X (Min r) <= X (Max r) /\ Y (Min r) <= Y (Max r).

(** A point on or inside the edges of a rectangle. *)
Definition within (r : Rectangle) (p : Point) : Prop :=
  X (Min r) <= X p <= X (Max r) /\ Y (Min r) <= Y p <= Y (Max r).

(** ** Outcomes of a call and counted loops *)

(** What a call does: it returns, or it panics.  [OutOfFuel] is an
    artefact of the loop model below and is shown never to arise. *)
Inductive outcome (A : Type) : Type :=
| Returned (a : A)
| Panicked
| OutOfFuel.

Arguments Returned {A} a.
Arguments Panicked {A}.
Arguments OutOfFuel {A}.

Definition obind {A B : Type} (m : outcome A) (k : A -> outcome B) : outcome B :=
  match m with
  | Returned a => k a
  | Panicked => Panicked
  | OutOfFuel => OutOfFuel
  end.

(** Indexing a slice panics out of range. *)
Definition index {A : Type} (l : list A) (i : Z) : outcome A :=
  if i <? 0 then Panicked
  else match l !! Z.to_nat i with
       | Some a => Returned a
       | None => Panicked
       end.

(** [for i := i0; cond i; i = next i { s = body i s }]. *)
Fixpoint for_loop {S : Type} (fuel : nat) (cond : Z -> bool) (next : Z -> Z)
    (body : Z -> S -> outcome S) (i : Z) (s : S) : outcome S :=
  if cond i then
    match fuel with
    | O => OutOfFuel
    | Datatypes.S fuel' =>
        obind (body i s) (fun s' => for_loop fuel' cond next body (next i) s')
    end
  else Returned s.

(** [len] of a slice, as an [int]. *)
Definition len {A : Type} (l : list A) : Z := Z.of_nat (length l).

(** ** Go's [float32] and [float64] *)

Module F32.

Definition prec : Z := 24.
Definition emax : Z := 128.

Definition add : spec_float -> spec_float -> spec_float := SFadd prec emax.
Definition sub : spec_float -> spec_float -> spec_float := SFsub prec emax.
Definition mul : spec_float -> spec_float -> spec_float := SFmul prec emax.

(** [x < y], [x == y] and [x <= y]: false as soon as one side is NaN. *)
Definition ltb : spec_float -> spec_float -> bool := SFltb.
Definition eqb : spec_float -> spec_float -> bool := SFeqb.
Definition leb : spec_float -> spec_float -> bool := SFleb.

Definition zero : spec_float := S754_zero false.

(** The conversion [float32(n)] of an [int]. *)
Definition of_int (n : Z) : spec_float := binary_normalize prec emax n 0 false.

(** The conversion [int(x)]: the fractional part is discarded.  For a
    value that does not fit (and for NaN and the infinities) Go leaves the
    result to the implementation; amd64 yields the smallest [int]. *)
Definition to_int (x : spec_float) : Z :=
  match x with
  | S754_zero _ => 0
  | S754_finite s m e =>
      let v := cond_Zopp s (Z.shiftl (Z.pos m) e) in
      if (Int.min_int <=? v) && (v <=? Int.max_int) then v else Int.min_int
  | S754_infinity _ | S754_nan => Int.min_int
  end.

(** A finite value: neither NaN nor an infinity. *)
Definition is_finite (x : spec_float) : bool :=
  match x with
  | S754_zero _ | S754_finite _ _ _ => true
  | S754_infinity _ | S754_nan => false
  end.

Definition is_nan (x : spec_float) : bool :=
  match x with S754_nan => true | _ => false end.

(** A decimal constant [n / 10^k] of the source, rounded once. *)
Definition of_decimal (n : Z) (k : Z) : spec_float :=
  match n, 10 ^ k with
  | Z.pos m, Z.pos d =>
      let '(mz, ez, lz) := SFdiv_core_binary prec emax (Z.pos m) 0 (Z.pos d) 0 in
      binary_round_aux prec emax false mz ez lz
  | _, _ => of_int n
  end.

End F32.

Module F64.

Definition prec : Z := 53.
Definition emax : Z := 1024.

(** [float64(x)] of a [float32]: exact. *)
Definition of_f32 (x : spec_float) : spec_float :=
  match x with
  | S754_finite s m e => binary_normalize prec emax (cond_Zopp s (Z.pos m)) e s
  | _ => x
  end.

(** [math.Sqrt]. *)
Definition sqrt : spec_float -> spec_float := SFsqrt prec emax.

(** [float32(x)] of a [float64]: rounded to nearest even. *)
Definition to_f32 (x : spec_float) : spec_float :=
  match x with
  | S754_finite s m e => binary_normalize F32.prec F32.emax (cond_Zopp s (Z.pos m)) e s
  | _ => x
  end.

End F64.

Abbreviation float32 := spec_float.

(** A number (not NaN) carrying the sign bit [s]. *)
Definition has_sign (s : bool) (x : float32) : bool :=
  match x with
  | S754_zero s' | S754_infinity s' | S754_finite s' _ _ => Bool.eqb s s'
  | S754_nan => false
  end.

(** ** Errors *)

(** Go [error] values as built by [github.com/pkg/errors]: a message, or
    a cause wrapped under a message.  Stack traces are left out. *)
Inductive error : Type :=
| New (msg : string)
| Wrap (cause : error) (msg : string).

(** [err.Error()]. *)
Fixpoint Error (e : error) : string :=
  match e with
  | New msg => msg
  | Wrap cause msg => msg +:+ ": " +:+ Error cause
  end.

(** [errors.Errorf] with two [%d] verbs, as [DistanceTo] calls it. *)
Definition Errorf_dd (before : string) (a : Z) (between : string) (b : Z) : error :=
  New (before +:+ pretty a +:+ between +:+ pretty b).

(** ** Detections *)

Record Detection : Type := mkDetection {
  Box : Rectangle;
  Score : float32;
  Class : float32
}.

Definition Above (allDetections : list Detection) (threshold : float32)
    : list Detection :=
  fold_left
    (fun above d => if F32.ltb (Score d) threshold then above else above ++ [d])
    allDetections [].

(** ** Landmarks *)

Record Landmarks : Type := mkLandmarks { Coords : list float32 }.

Definition PointsOnImage_body (l : Landmarks) (w h : float32) (minX minY : Z)
    (i : Z) (points : list Point) : outcome (list Point) :=
  obind (index (Coords l) i) (fun cx =>
  obind (index (Coords l) (Int.add i 1)) (fun cy =>
  Returned (points ++ [mkPoint (Int.add minX (F32.to_int (F32.mul w cx)))
                               (Int.add minY (F32.to_int (F32.mul h cy)))]))).

Definition PointsOnImage (l : Landmarks) (img : Image) : outcome (list Point) :=
  let w := F32.of_int (Dx (Bounds img)) in
  let h := F32.of_int (Dy (Bounds img)) in
  let minX := X (Min (Bounds img)) in
  let minY := Y (Min (Bounds img)) in
  for_loop (length (Coords l))
    (fun i => i <? Int.sub (len (Coords l)) 1)
    (fun i => Int.add i 2)
    (PointsOnImage_body l w h minX minY)
    0 [].

(** The loop of [Center] over the points: the running minimum starts at
    the maximum corner of the bounds and the running maximum at their
    minimum corner. *)
Definition Center_step (acc : Z * Z * Z * Z) (p : Point) : Z * Z * Z * Z :=
  let '(minX, minY, maxX, maxY) := acc in
  let minX := if X p <? minX then X p else minX in
  let minY := if Y p <? minY then Y p else minY in
  let maxX := if X p >? maxX then X p else maxX in
  let maxY := if Y p >? maxY then Y p else maxY in
  (minX, minY, maxX, maxY).

Definition Center_box (points : list Point) (bounds : Rectangle) : Rectangle :=
  let '(minX, minY, maxX, maxY) :=
    fold_left Center_step points
      (X (Max bounds), Y (Max bounds), X (Min bounds), Y (Min bounds)) in
  mkRect (mkPoint minX minY) (mkPoint maxX maxY).

(** The rectangle [Center] crops the full image to. *)
Definition Center_rect (points : list Point) (bounds : Rectangle) : Rectangle :=
  insideOf (square (Center_box points bounds)) bounds.

Definition Center (l : Landmarks) (cropped full : Image) : outcome Image :=
  let bounds := Bounds full in
  obind (PointsOnImage l cropped) (fun points =>
  let rect := Center_rect points bounds in
  let out := NewRGBA rect in
  Returned (draw.Draw out (Bounds out) full (Min rect))).

(** ** Descriptors *)

Abbreviation Descriptors := (list float32).

Definition DistanceTo_body (d d2 : Descriptors) (i : Z) (sum : float32)
    : outcome float32 :=
  obind (index d i) (fun x =>
  obind (index d2 i) (fun y =>
  Returned (F32.add sum (F32.mul (F32.sub x y) (F32.sub x y))))).

Definition DistanceTo (d d2 : Descriptors) : outcome (float32 * option error) :=
  if negb (len d =? len d2) then
    Returned (F32.zero,
              Some (Errorf_dd "cannot calculate distance between descriptors of dimensions "
                              (len d) " and " (len d2)))
  else
    obind (for_loop (length d) (fun i => i <? len d) (fun i => Int.add i 1)
             (DistanceTo_body d d2) 0 F32.zero)
          (fun sum => Returned (F64.to_f32 (F64.sqrt (F64.of_f32 sum)), None)).

(** ** The two index loops, by recursion on the slices

    What [PointsOnImage] and [DistanceTo] are shown to compute: the
    coordinates taken two by two, and the squared differences summed
    from the left. *)

Fixpoint points_of_pairs (w h : float32) (minX minY : Z) (coords : list float32)
    : list Point :=
  match coords with
  | cx :: cy :: rest =>
      mkPoint (Int.add minX (F32.to_int (F32.mul w cx)))
              (Int.add minY (F32.to_int (F32.mul h cy)))
        :: points_of_pairs w h minX minY rest
  | _ => []
  end.

Fixpoint sum_squares (sum : float32) (d d2 : list float32) : float32 :=
  match d, d2 with
  | x :: d', y :: d2' =>
      sum_squares (F32.add sum (F32.mul (F32.sub x y) (F32.sub x y))) d' d2'
  | _, _ => sum
  end.

(** A slice holds fewer than [2^63] elements. *)
Definition slice_ok {A : Type} (l : list A) : Prop := len l <= Int.max_int.

(** The Euclidean distance as the specification words it: the squared
    differences of the paired entries, summed, then the square root. *)
Definition squared_difference (x y : float32) : float32 :=
  F32.mul (F32.sub x y) (F32.sub x y).

Definition euclidean (a b : Descriptors) : float32 :=
  F64.to_f32 (F64.sqrt (F64.of_f32
    (fold_left F32.add (zip_with squared_difference a b) F32.zero))).

(** The bounding box of a set of points as the specification uses the
    words: on each axis, from the least to the greatest coordinate of the
    points.  [p] is any one of the points, [ps] are the others. *)
Definition bounding_box (p : Point) (ps : list Point) : Rectangle :=
  mkRect (mkPoint (fold_left Z.min (map X ps) (X p))
                  (fold_left Z.min (map Y ps) (Y p)))
         (mkPoint (fold_left Z.max (map X ps) (X p))
                  (fold_left Z.max (map Y ps) (Y p))).

(** The invariant of the loop of [Center]: the running box lies inside
    the bounds and is well formed. *)
Definition box_inv (bounds : Rectangle) (acc : Z * Z * Z * Z) : Prop :=
  let '(minX, minY, maxX, maxY) := acc in
  X (Min bounds) <= minX /\ minX <= maxX /\ maxX <= X (Max bounds) /\
  Y (Min bounds) <= minY /\ minY <= maxY /\ maxY <= Y (Max bounds).

(** ** The extractor *)

(** The three collaborators are Go interfaces with one method each.  A
    call may fail and may change the collaborator's own state, which is
    threaded through as a world [W].  [Landmark.Detect] returns a pointer,
    which may be [nil]. *)
Record Extractor (W : Type) : Type := mkExtractor {
  Detector : Image -> W -> (list Detection * option error) * W;
  Landmark : Image -> W -> (option Landmarks * option error) * W;
  Descriptor : Image -> W -> (Descriptors * option error) * W
}.

Arguments Detector {W} e img w.
Arguments Landmark {W} e img w.
Arguments Descriptor {W} e img w.

(** The constants 0.6 and 0.4, converted to [float32] at compile time. *)
Definition threshold_Extract : float32 := F32.of_decimal 6 1.
Definition threshold_ExtractLandmarks : float32 := F32.of_decimal 4 1.

(** The test [d.Box.Dx() < 45 || d.Box.Dy() < 45]. *)
Definition too_small (d : Detection) : bool :=
  (Dx (Box d) <? 45) || (Dy (Box d) <? 45).

(** [image.NewRGBA(d.Box)] followed by [draw.Draw]. *)
Definition crop (img : Image) (d : Detection) : Image :=
  let cropped := NewRGBA (Box d) in
  draw.Draw cropped (Box d) img (Min (Box d)).

Section Extract.

Context {W : Type}.

Definition ExtractResult : Type := list Image * list Descriptors * option error.

(** The [for _, d := range detections] loop of [Extract], with the two
    slices it appends to. *)
Fixpoint Extract_loop (e : Extractor W) (img : Image) (detections : list Detection)
    (images : list Image) (descrs : list Descriptors) (w : W)
    : outcome (ExtractResult * W) :=
  match detections with
  | [] => Returned ((images, descrs, None), w)
  | d :: rest =>
      if too_small d then Extract_loop e img rest images descrs w
      else
        let cropped := crop img d in
        let '((landmarks, err), w) := Landmark e cropped w in
        match err with
        | Some err =>
            Returned (([], [], Some (Wrap err "error detecting landmarks")), w)
        | None =>
            match landmarks with
            | None => Panicked
            | Some landmarks =>
                obind (Center landmarks cropped img) (fun cropped2 =>
                let '((descriptors, err), w) := Descriptor e cropped2 w in
                match err with
                | Some err =>
                    Returned (([], [], Some (Wrap err "error computing descriptors")), w)
                | None =>
                    Extract_loop e img rest
                      (images ++ [cropped2]) (descrs ++ [descriptors]) w
                end)
            end
        end
  end.

Definition Extract (e : Extractor W) (img : Image) (w : W)
    : outcome (ExtractResult * W) :=
  let '((allDetections, err), w) := Detector e img w in
  match err with
  | Some err => Returned (([], [], Some (Wrap err "error detecting faces")), w)
  | None =>
      let detections := Above allDetections threshold_Extract in
      Extract_loop e img detections [] [] w
  end.

Definition ExtractLandmarksResult : Type :=
  list (list Point) * list Image * option error.

Fixpoint ExtractLandmarks_loop (e : Extractor W) (img : Image)
    (detections : list Detection) (ret : list (list Point)) (crops : list Image)
    (w : W) : outcome (ExtractLandmarksResult * W) :=
  match detections with
  | [] => Returned ((ret, crops, None), w)
  | d :: rest =>
      if too_small d then ExtractLandmarks_loop e img rest ret crops w
      else
        let cropped := crop img d in
        let '((landmarks, err), w) := Landmark e cropped w in
        match err with
        | Some err =>
            Returned (([], [], Some (Wrap err "error detecting landmarks")), w)
        | None =>
            match landmarks with
            | None => Panicked
            | Some landmarks =>
                obind (PointsOnImage landmarks cropped) (fun points =>
                ExtractLandmarks_loop e img rest
                  (ret ++ [points]) (crops ++ [cropped]) w)
            end
        end
  end.

Definition ExtractLandmarks (e : Extractor W) (img : Image) (w : W)
    : outcome (ExtractLandmarksResult * W) :=
  let '((allDetections, err), w) := Detector e img w in
  match err with
  | Some err => Returned (([], [], Some (Wrap err "error detecting faces")), w)
  | None =>
      let detections := Above allDetections threshold_ExtractLandmarks in
      if len detections =? 0 then
        Returned (([], [], Some (New "no face detected")), w)
      else ExtractLandmarks_loop e img detections [] [] w
  end.

End Extract.

(** What a successful run of the loop of [Extract] does, detection by
    detection: a detection that is too small is passed over without any
    call; any other one is cropped, sent to [Landmark], centred, sent to
    [Descriptor], and contributes one image and one descriptor, in the
    order of the detections. *)
Inductive processed {W : Type} (e : Extractor W) (img : Image)
    : list Detection -> W -> list Image -> list Descriptors -> W -> Prop :=
| processed_nil (w : W) : processed e img [] w [] [] w
| processed_skip (d : Detection) (rest : list Detection) (w w' : W)
    (images : list Image) (descrs : list Descriptors) :
    too_small d = true ->
    processed e img rest w images descrs w' ->
    processed e img (d :: rest) w images descrs w'
| processed_face (d : Detection) (rest : list Detection) (w w1 w2 w' : W)
    (landmarks : Landmarks) (cropped2 : Image) (descriptors : Descriptors)
    (images : list Image) (descrs : list Descriptors) :
    too_small d = false ->
    Landmark e (crop img d) w = ((Some landmarks, None), w1) ->
    Center landmarks (crop img d) img = Returned cropped2 ->
    Descriptor e cropped2 w1 = ((descriptors, None), w2) ->
    processed e img rest w2 images descrs w' ->
    processed e img (d :: rest) w (cropped2 :: images) (descriptors :: descrs) w'.


(** ** Package [crypto/sha1]

    SHA-1 after FIPS 180-4, on bytes kept as integers below 256. *)

Module sha1.

Definition word (z : Z) : Z := z mod 2 ^ 32.

Definition rotl (n : Z) (x : Z) : Z :=
  word (Z.lor (Z.shiftl x n) (Z.shiftr x (32 - n))).

(** The message followed by the bit 1, zeros up to 56 modulo 64 bytes,
    and the bit length of the message on 8 bytes, big-endian. *)
Definition be_bytes (n : nat) (z : Z) : list Z :=
  map (fun i => Z.shiftr z (8 * Z.of_nat i) mod 256) (rev (seq 0 n)).

Definition padding (msg : list Z) : list Z :=
  let l := Z.of_nat (List.length msg) in
  let zeros := Z.to_nat ((55 - l) mod 64) in
  msg ++ [128] ++ repeat 0 zeros ++ be_bytes 8 (8 * l).

Definition be_word (b : list Z) : Z :=
  fold_left (fun acc x => acc * 256 + x) b 0.

Fixpoint chunks (fuel : nat) (size : nat) (l : list Z) : list (list Z) :=
  match fuel, l with
  | _, [] => []
  | O, _ => []
  | S fuel', _ => firstn size l :: chunks fuel' size (skipn size l)
  end.

Fixpoint schedule (n : nat) (w : list Z) : list Z :=
  match n with
  | O => w
  | S n' =>
      let t := List.length w in
      let at_ k := nth (t - k) w 0 in
      schedule n'
        (w ++ [rotl 1 (Z.lxor (Z.lxor (at_ 3%nat) (at_ 8%nat))
                              (Z.lxor (at_ 14%nat) (at_ 16%nat)))])
  end.

Definition round (t : nat) (st : Z * Z * Z * Z * Z) (wt : Z) : Z * Z * Z * Z * Z :=
  let '(a, b, c, d, e) := st in
  let '(f, k) :=
    if (t <? 20)%nat then
      (Z.lor (Z.land b c) (Z.land (Z.lxor b (2 ^ 32 - 1)) d), 0x5A827999)
    else if (t <? 40)%nat then (Z.lxor (Z.lxor b c) d, 0x6ED9EBA1)
    else if (t <? 60)%nat then
      (Z.lor (Z.lor (Z.land b c) (Z.land b d)) (Z.land c d), 0x8F1BBCDC)
    else (Z.lxor (Z.lxor b c) d, 0xCA62C1D6) in
  (word (rotl 5 a + f + e + k + wt), a, rotl 30 b, c, d).

Fixpoint rounds (t : nat) (ws : list Z) (st : Z * Z * Z * Z * Z) : Z * Z * Z * Z * Z :=
  match ws with
  | [] => st
  | wt :: ws' => rounds (S t) ws' (round t st wt)
  end.

Definition block (h : Z * Z * Z * Z * Z) (b : list Z) : Z * Z * Z * Z * Z :=
  let w := schedule 64 (map be_word (chunks 16 4 b)) in
  let '(h0, h1, h2, h3, h4) := h in
  let '(a, b', c, d, e) := rounds 0 w h in
  (word (h0 + a), word (h1 + b'), word (h2 + c), word (h3 + d), word (h4 + e)).

Definition init : Z * Z * Z * Z * Z :=
  (0x67452301, 0xEFCDAB89, 0x98BADCFE, 0x10325476, 0xC3D2E1F0).

(** [sha1.Sum]: the 20 bytes of the digest. *)
Definition Sum (msg : list Z) : list Z :=
  let p := padding msg in
  let '(h0, h1, h2, h3, h4) := fold_left block (chunks (List.length p) 64 p) init in
  flat_map (be_bytes 4) [h0; h1; h2; h3; h4].

End sha1.

(** [[]byte(s)]: the bytes of a string. *)
Definition bytes_of_string (s : string) : list Z :=
  map (fun c => Z.of_N (N_of_ascii c)) (list_ascii_of_string s).

(** [fmt.Sprintf "%x"] of a byte array: two lower-case hexadecimal digits
    per byte. *)
Definition hex_digit (n : Z) : ascii :=
  if n <? 10 then ascii_of_N (Z.to_N (48 + n)) else ascii_of_N (Z.to_N (87 + n)).

Fixpoint hex (bytes : list Z) : string :=
  match bytes with
  | [] => EmptyString
  | b :: rest => String (hex_digit (b / 16)) (String (hex_digit (b mod 16)) (hex rest))
  end.

(** ** The local cache of the command-line tool *)

(** The part of the file system the cache touches: regular files with
    their contents, and directories.  A path is a plain string; the
    directory of a path is the text before its last slash. *)
Record FS : Type := mkFS {
  files : gmap string string;
  dirs : gset string
}.

Fixpoint last_slash (s : string) : option nat :=
  match s with
  | EmptyString => None
  | String c rest =>
      match last_slash rest with
      | Some n => Some (S n)
      | None => if Ascii.eqb c "/" then Some O else None
      end
  end.

Definition dirname (path : string) : string :=
  match last_slash path with
  | None => "."
  | Some O => "/"
  | Some n => substring 0 n path
  end.

(** [ioutil.ReadFile]. *)
Definition ReadFile (path : string) (fs : FS) : string * option error :=
  match files fs !! path with
  | Some b => (b, None)
  | None => ("", Some (New ("open " +:+ path +:+ ": no such file or directory")))
  end.

(** [ioutil.WriteFile]: the file is created or replaced; its directory
    must exist. *)
Definition WriteFile (path : string) (data : string) (fs : FS) : option error * FS :=
  if decide (dirname path ∈ dirs fs /\ path ∉ dirs fs) then
    (None, mkFS (<[path := data]> (files fs)) (dirs fs))
  else (Some (New ("open " +:+ path +:+ ": no such file or directory")), fs).

(** [os.Mkdir]: one directory is created; the path must be free and its
    parent must exist. *)
Definition Mkdir (path : string) (fs : FS) : option error * FS :=
  if decide (path ∈ dirs fs \/ is_Some (files fs !! path)) then
    (Some (New ("mkdir " +:+ path +:+ ": file exists")), fs)
  else if decide (dirname path ∈ dirs fs) then
    (None, mkFS (files fs) ({[ path ]} ∪ dirs fs))
  else (Some (New ("mkdir " +:+ path +:+ ": no such file or directory")), fs).

Record LocalCache : Type := mkLocalCache { CacheDir : string }.

(** What the cache and the function it memoises act on: the file system,
    the state [C] owned by the function, and a count of the calls made to
    the function (kept for the statements below; the code has no such
    counter). *)
Record World (C : Type) : Type := mkWorld {
  fs : FS;
  cst : C;
  invocations : nat
}.

Arguments mkWorld {C} fs cst invocations.
Arguments fs {C} w.
Arguments cst {C} w.
Arguments invocations {C} w.

Section Cache.

(** The JSON codec of [encoding/json] at type [[]string] is library code,
    taken as given. *)
Variable json_Marshal : list string -> string * option error.
Variable json_Unmarshal : string -> list string * option error.

Context {C : Type}.

(** The function handed to [Inception]: a closure [func() ([]string, error)]. *)
Definition inception_fn : Type := C -> (list string * option error) * C.

Definition invoke (inception : inception_fn) (w : World C)
    : (list string * option error) * World C :=
  let '(r, c) := inception (cst w) in
  (r, mkWorld (fs w) c (S (invocations w))).

Definition cacheName (cacheDir file : string) : string :=
  cacheDir +:+ "/" +:+ hex (sha1.Sum (bytes_of_string file)) +:+ ".json".

Definition readCache (cacheFile : string) (f : FS) : list string * bool :=
  let '(b, err) := ReadFile cacheFile f in
  match err with
  | Some _ => ([], false)
  | None =>
      let '(preds, err) := json_Unmarshal b in
      match err with
      | Some _ => ([], false)
      | None => (preds, true)
      end
  end.

(** Every error is printed and dropped; console output is not modelled. *)
Definition saveCache (cacheDir cacheFile : string) (preds : list string) (f : FS) : FS :=
  let '(b, err) := json_Marshal preds in
  match err with
  | Some _ => f
  | None =>
      let '(err, f) := WriteFile cacheFile b f in
      match err with
      | None => f
      | Some _ =>
          let '(err, f) := Mkdir cacheDir f in
          match err with
          | Some _ => f
          | None =>
              let '(err, f) := WriteFile cacheFile b f in
              match err with
              | Some _ => f
              | None => f
              end
          end
      end
  end.

Definition Inception (l : LocalCache) (file : string) (inception : inception_fn)
    (w : World C) : (list string * option error) * World C :=
  let cacheFile := cacheName (CacheDir l) file in
  let '(preds, ok) := readCache cacheFile (fs w) in
  if ok then ((preds, None), w)
  else
    let '((preds, err), w) := invoke inception w in
    match err with
    | Some err => (([], Some err), w)
    | None =>
        let f := saveCache (CacheDir l) cacheFile preds (fs w) in
        ((preds, None), mkWorld f (cst w) (invocations w))
    end.

(** When the cache file of [file] can be written: it is not a directory,
    and the cache directory exists or can be created. *)
Definition cache_writable (l : LocalCache) (file : string) (f : FS) : Prop :=
  (cacheName (CacheDir l) file ∉ dirs f) /\
  ((CacheDir l ∈ dirs f) \/
   ((CacheDir l ∉ dirs f) /\ files f !! CacheDir l = None /\
    (dirname (CacheDir l) ∈ dirs f))).

End Cache.

(** ** Drawing the landmarks *)

(** The method [Set] of [image.RGBA]: a point outside the bounds is
    ignored. *)
Definition RGBA_Set (img : Image) (x y : Z) (c : RGBA) : Image :=
  if PointIn (mkPoint x y) (Bounds img) then
    mkImage (Bounds img)
      (fun x' y' => if (x' =? x) && (y' =? y) then c else At img x' y')
  else img.

(** [color.RGBA{G: 255}]. *)
Definition green : RGBA := mkRGBA 0 255 0 0.

(** [drawPoint] writes through its pointer argument; the image after the
    call is returned. *)
Definition drawPoint (img : Image) (p : Point) : outcome Image :=
  let width := 3 in
  for_loop 3
    (fun i => i <? Int.add (X p) (Int.quo width 2))
    (fun i => Int.add i 1)
    (fun i img =>
       for_loop 3
         (fun j => j <? Int.add (Y p) (Int.quo width 2))
         (fun j => Int.add j 1)
         (fun j img => Returned (RGBA_Set img i j green))
         (Int.sub (Y p) (Int.quo width 2)) img)
    (Int.sub (X p) (Int.quo width 2)) img.





(** The four pixels [drawPoint] aims at: the point, and its neighbours
    one step towards the minimum corner. *)
Definition in_block (p : Point) (x y : Z) : bool :=
  (X p - 1 <=? x) && (x <=? X p) && (Y p - 1 <=? y) && (y <=? Y p).

(** ** The folder inspection of the command-line tool *)

(** The test [x == nil] of an interface value that may be absent. *)
Definition is_nil {A : Type} (x : option A) : bool :=
  match x with
  | None => true
  | Some _ => false
  end.

Section Inspect.

Variable json_Marshal : list string -> string * option error.
Variable json_Unmarshal : string -> list string * option error.

(** Code of libraries and of packages outside this development, taken as
    given: [filepath.Glob] and [imageutils.FromFile], which read the file
    system; the predictions of package [tensor], of which
    [Above_threshold] gives [predictions.Above(threshold)]; the field
    [Label] of a prediction; [strings.ToLower]. *)
Variable Glob : string -> FS -> list string * option error.
Variable FromFile : string -> FS -> Image * option error.
Variable Predictions : Type.
Variable Prediction : Type.
Variable Above_threshold : Predictions -> list Prediction.
Variable Label : Prediction -> string.
Variable ToLower : string -> string.

Context {C : Type}.

(** The interface [Classifier]; the state [C] is what the model behind
    it owns. *)
Definition Classifier : Type := Image -> C -> (Predictions * option error) * C.

(** The closure [inception] that [inspectFolder] builds for one file. *)
Definition inception_for (classifier : option Classifier) (img : Image)
    (file : string) : inception_fn :=
  match classifier with
  | Some cl =>
      fun c =>
        let '((predictions, err), c) := cl img c in
        match err with
        | Some err =>
            (([], Some (Wrap err ("error executing inception on " +:+ file))), c)
        | None =>
            ((map (fun p => ToLower (Label p)) (Above_threshold predictions), None), c)
        end
  | None => fun c => (([], Some (New "no classifier given")), c)
  end.

(** [objects[p] = append(objects[p], file)]. *)
Definition add_file (file : string) (objects : gmap string (list string))
    (p : string) : gmap string (list string) :=
  <[p := default [] (objects !! p) ++ [file]]> objects.

(** The loop of [inspectFolder] over the files; each [continue] moves on
    to the rest of the files.  The cache is the [LocalCache], the one
    implementation of the interface [Cache]. *)
Fixpoint inspect_loop (cache : option LocalCache) (classifier : option Classifier)
    (files : list string) (objects : gmap string (list string)) (w : World C)
    : gmap string (list string) * World C :=
  match files with
  | [] => (objects, w)
  | file :: rest =>
      let '(img, err) := FromFile file (fs w) in
      match err with
      | Some _ => inspect_loop cache classifier rest objects w
      | None =>
          let inception := inception_for classifier img file in
          let '((preds, err), w) :=
            match cache with
            | Some l => Inception json_Marshal json_Unmarshal l file inception w
            | None => invoke inception w
            end in
          match err with
          | Some _ => inspect_loop cache classifier rest objects w
          | None =>
              inspect_loop cache classifier rest
                (fold_left (add_file file) preds objects) w
          end
      end
  end.

Definition inspectFolder (cache : option LocalCache) (classifier : option Classifier)
    (folder : string) (w : World C)
    : (gmap string (list string) * option error) * World C :=
  if is_nil cache && is_nil classifier then
    ((∅, Some (New "cannot inspect without cache or classifier")), w)
  else
    let '(files, err) := Glob (folder +:+ "/*") (fs w) in
    match err with
    | Some err => ((∅, Some err), w)
    | None =>
        let '(objects, w) := inspect_loop cache classifier files ∅ w in
        ((objects, None), w)
    end.

(** What the cache holds for a file that can be opened as an image. *)
Definition cached_labels (l : LocalCache) (f : FS) (file : string) : list string :=
  match snd (FromFile file f) with
  | Some _ => []
  | None =>
      let '(preds, ok) := readCache json_Unmarshal (cacheName (CacheDir l) file) f in
      if ok then preds else []
  end.

(** [strings.TrimSuffix]. *)
Definition TrimSuffix (s suffix : string) : string :=
  if (String.length suffix <=? String.length s)%nat
     && String.eqb (substring (String.length s - String.length suffix)
                              (String.length suffix) s) suffix
  then substring 0 (String.length s - String.length suffix) s
  else s.

Definition newline : string := String (ascii_of_nat 10) EmptyString.

Definition find (objects : gmap string (list string)) (query : string) : list string :=
  let query := ToLower (TrimSuffix query newline) in
  default [] (objects !! query).

End Inspect.

(** ** Example inputs

    A blank 200 by 200 image and 100 by 10 image, a confident detection
    over a 100 by 100 box, a faint one, and collaborators built from
    them.  The landmarks sit at a quarter and at a half of the crop. *)

Definition ex_full : Image := NewRGBA (mkRect (mkPoint 0 0) (mkPoint 200 200)).

Definition ex_wide : Image := NewRGBA (mkRect (mkPoint 0 0) (mkPoint 100 10)).

Definition ex_points : list Point := [mkPoint 10 10; mkPoint 30 20].

Definition ex_detection : Detection :=
  mkDetection (mkRect (mkPoint 0 0) (mkPoint 100 100)) (F32.of_decimal 9 1) F32.zero.

Definition ex_faint_detection : Detection :=
  mkDetection (mkRect (mkPoint 0 0) (mkPoint 100 100)) (F32.of_decimal 3 1) F32.zero.

Definition ex_landmarks : Landmarks :=
  mkLandmarks [F32.of_decimal 25 2; F32.of_decimal 25 2;
               F32.of_decimal 5 1; F32.of_decimal 5 1].

Definition ex_corner_landmarks : Landmarks :=
  mkLandmarks [F32.zero; F32.zero; F32.of_decimal 5 1; F32.of_decimal 5 1].

Definition ex_descriptor : Descriptors := [F32.of_int 3; F32.of_int 4; F32.zero].

Definition ex_extractor : Extractor unit :=
  mkExtractor unit
    (fun _ w => (([ex_detection], None), w))
    (fun _ w => ((Some ex_landmarks, None), w))
    (fun _ w => ((ex_descriptor, None), w)).

Definition ex_faint_extractor : Extractor unit :=
  mkExtractor unit
    (fun _ w => (([ex_faint_detection], None), w))
    (fun _ w => ((Some ex_landmarks, None), w))
    (fun _ w => ((ex_descriptor, None), w)).


(** A small codec in JSON syntax for lists of strings without quotes or
    backslashes, standing in for [encoding/json] in the examples. *)
Definition quote : ascii := ascii_of_nat 34.

Definition ex_Marshal (preds : list string) : string * option error :=
  ("[" +:+ String.concat ","
             (map (fun s => String quote (s +:+ String quote "")) preds) +:+ "]",
   None).

Fixpoint ex_parse (s : string) (cur : option string) (acc : list string)
    : option (list string) :=
  match s with
  | EmptyString => None
  | String c rest =>
      match cur with
      | Some buf =>
          if Ascii.eqb c quote then ex_parse rest None (acc ++ [buf])
          else ex_parse rest (Some (buf +:+ String c "")) acc
      | None =>
          if Ascii.eqb c quote then ex_parse rest (Some ""%string) acc
          else if Ascii.eqb c "," then ex_parse rest None acc
          else if Ascii.eqb c "]" then
            match rest with EmptyString => Some acc | _ => None end
          else None
      end
  end.

Definition ex_Unmarshal (b : string) : list string * option error :=
  match b with
  | String "[" rest =>
      match ex_parse rest None [] with
      | Some preds => (preds, None)
      | None => ([], Some (New "invalid character"))
      end
  | _ => ([], Some (New "invalid character"))
  end.

(** A file system where [/photos] exists, and an empty one; a cache under
    each; a classifier that answers two labels and counts its calls. *)
Definition ex_fs_ready : FS := mkFS ∅ {[ "/photos"%string ]}.

Definition ex_fs_missing : FS := mkFS ∅ ∅.

Definition ex_cache : LocalCache := mkLocalCache "/photos/.inception".

Definition ex_lost_cache : LocalCache := mkLocalCache "/missing/.inception".

Definition ex_inception : nat -> (list string * option error) * nat :=
  fun c => ((["cat"; "tabby"]%string, None), S c).

(** Stand-ins for the folder listing and the image decoder: a folder with
    one picture, whose labels are in the cache. *)
Definition ex_Glob (pattern : string) (f : FS) : list string * option error :=
  (["/photos/cat.jpg"%string], None).

Definition ex_FromFile (file : string) (f : FS) : Image * option error :=
  (ex_full, None).

Definition ex_fs_cached : FS :=
  mkFS {[ cacheName "/photos/.inception" "/photos/cat.jpg"
          := fst (ex_Marshal ["cat"; "tabby"]%string) ]}
       {[ "/photos"%string; "/photos/.inception"%string ]}.



(** A confident detection whose box is 30 pixels wide, a detection whose
    score is NaN, and detectors that answer them. *)
Definition ex_small_detection : Detection :=
  mkDetection (mkRect (mkPoint 0 0) (mkPoint 30 100)) (F32.of_decimal 9 1) F32.zero.

Definition ex_nan_detection : Detection :=
  mkDetection (mkRect (mkPoint 0 0) (mkPoint 100 100)) S754_nan F32.zero.

Definition ex_mixed_extractor : Extractor unit :=
  mkExtractor unit
    (fun _ w => (([ex_small_detection; ex_detection; ex_faint_detection], None), w))
    (fun _ w => ((Some ex_landmarks, None), w))
    (fun _ w => ((ex_descriptor, None), w)).

Definition ex_nan_extractor : Extractor unit :=
  mkExtractor unit
    (fun _ w => (([ex_nan_detection], None), w))
    (fun _ w => ((Some ex_landmarks, None), w))
    (fun _ w => ((ex_descriptor, None), w)).

(** * Properties *)

(** ** Arithmetic of [int] *)

Ltac int_unfold :=
  unfold Int.add, Int.sub, Int.quo, Int.wrap, Int.in_range, Int.min_int,
    Int.max_int, Int.modulus, Int.half_modulus in *.

Ltac int_solve := int_unfold; Z.to_euclidean_division_equations; lia.

Lemma wrap_in_range (z : Z) : Int.in_range (Int.wrap z).
Proof. int_solve. Qed.

Lemma wrap_id (z : Z) : Int.in_range z -> Int.wrap z = z.
Proof. int_solve. Qed.

Lemma wrap_congr (a b : Z) :
  (exists k, a = b + 2 ^ 64 * k) -> Int.wrap a = Int.wrap b.
Proof. intros [k ->]. int_solve. Qed.

Lemma wrap_diff (a : Z) : exists k, Int.wrap a = a + 2 ^ 64 * k.
Proof.
  exists (- ((a + 2 ^ 63) / 2 ^ 64)). int_solve.
Qed.

Lemma Dx_in_range (r : Rectangle) : Int.in_range (Dx r).
Proof. apply wrap_in_range. Qed.

Lemma Dy_in_range (r : Rectangle) : Int.in_range (Dy r).
Proof. apply wrap_in_range. Qed.

Lemma shift_lo_width (lo hi b : Z) :
  Int.sub (Int.add hi (Int.sub b lo)) b = Int.sub hi lo.
Proof. int_solve. Qed.

Lemma shift_hi_width (lo hi b : Z) :
  Int.sub b (Int.sub lo (Int.sub hi b)) = Int.sub hi lo.
Proof. int_solve. Qed.

(** ** [insideOf] and [square] *)

Ltac case_gtb :=
  repeat match goal with
  | |- context [?a >? ?b] => destruct (Z.gtb_spec a b); cbn [X Y Min Max]
  end.

Lemma insideOf_Dx (rect bounds : Rectangle) : Dx (insideOf rect bounds) = Dx rect.
Proof.
  destruct rect as [[x0 y0] [x1 y1]], bounds as [[bx0 by0] [bx1 by1]].
  unfold insideOf, Dx; cbn [X Y Min Max].
  case_gtb; try reflexivity; int_solve.
Qed.

Lemma insideOf_Dy (rect bounds : Rectangle) : Dy (insideOf rect bounds) = Dy rect.
Proof.
  destruct rect as [[x0 y0] [x1 y1]], bounds as [[bx0 by0] [bx1 by1]].
  unfold insideOf, Dy; cbn [X Y Min Max].
  case_gtb; try reflexivity; int_solve.
Qed.

Lemma square_Dx (rect : Rectangle) : Dx (square rect) = Z.max (Dx rect) (Dy rect).
Proof.
  destruct rect as [[x0 y0] [x1 y1]].
  unfold square, Dx, Dy; cbn [X Y Min Max].
  case_gtb; int_solve.
Qed.

Lemma square_Dy (rect : Rectangle) : Dy (square rect) = Z.max (Dx rect) (Dy rect).
Proof.
  destruct rect as [[x0 y0] [x1 y1]].
  unfold square, Dx, Dy; cbn [X Y Min Max].
  case_gtb; int_solve.
Qed.

Lemma insideOf_clamp (rect bounds : Rectangle) :
  insideOf rect bounds =
  let cx := clamp (X (Min bounds)) (X (Max bounds)) (X (Min rect), X (Max rect)) in
  let cy := clamp (Y (Min bounds)) (Y (Max bounds)) (Y (Min rect), Y (Max rect)) in
  mkRect (mkPoint (fst cx) (fst cy)) (mkPoint (snd cx) (snd cy)).
Proof.
  destruct rect as [[x0 y0] [x1 y1]], bounds as [[bx0 by0] [bx1 by1]].
  unfold insideOf, clamp; cbn [X Y Min Max fst snd].
  repeat match goal with
  | |- context [if ?c then _ else _] =>
      lazymatch c with
      | context [if _ then _ else _] => fail
      | _ => destruct c; cbn [X Y Min Max fst snd]
      end
  end; reflexivity.
Qed.

Lemma clamp_fits (bmin bmax lo hi : Z) :
  small bmin -> small bmax -> bmin <= bmax ->
  - 2 ^ 62 <= lo -> lo <= hi -> hi <= 2 ^ 62 -> hi - lo <= 2 ^ 62 ->
  let c := clamp bmin bmax (lo, hi) in
  snd c - fst c = hi - lo /\
  (bmin <= fst c /\ snd c <= bmax <-> hi - lo <= bmax - bmin).
Proof.
  unfold small, clamp. intros.
  destruct (Z.gtb_spec bmin lo).
  - assert (E1 : Int.sub bmin lo = bmin - lo) by (apply wrap_id; int_unfold; lia).
    rewrite E1.
    assert (E2 : Int.add hi (bmin - lo) = hi + (bmin - lo))
      by (apply wrap_id; int_unfold; lia).
    rewrite E2.
    destruct (Z.gtb_spec (hi + (bmin - lo)) bmax); cbn [fst snd].
    + assert (E3 : Int.sub (hi + (bmin - lo)) bmax = hi + (bmin - lo) - bmax)
        by (apply wrap_id; int_unfold; lia).
      rewrite E3.
      assert (E4 : Int.sub bmin (hi + (bmin - lo) - bmax) = bmin - (hi + (bmin - lo) - bmax))
        by (apply wrap_id; int_unfold; lia).
      rewrite E4. lia.
    + lia.
  - destruct (Z.gtb_spec hi bmax); cbn [fst snd].
    + assert (E3 : Int.sub hi bmax = hi - bmax) by (apply wrap_id; int_unfold; lia).
      rewrite E3.
      assert (E4 : Int.sub lo (hi - bmax) = lo - (hi - bmax))
        by (apply wrap_id; int_unfold; lia).
      rewrite E4. lia.
    + lia.
Qed.

(** Without overflow, [square] pads the shorter side on both ends. *)
Lemma square_pads (box : Rectangle) :
  small_rect box -> well_formed box ->
  exists l r t b : Z,
    square box =
      mkRect (mkPoint (X (Min box) - l) (Y (Min box) - t))
             (mkPoint (X (Max box) + r) (Y (Max box) + b)) /\
    0 <= l <= r /\ r <= l + 1 /\ 0 <= t <= b /\ b <= t + 1 /\
    l + r = Z.max (Dx box) (Dy box) - Dx box /\
    t + b = Z.max (Dx box) (Dy box) - Dy box /\
    Dx box = X (Max box) - X (Min box) /\
    Dy box = Y (Max box) - Y (Min box).
Proof.
  destruct box as [[x0 y0] [x1 y1]].
  unfold small_rect, small, well_formed, Dx, Dy; cbn [X Y Min Max].
  intros Hs Hw.
  assert (Ew : Int.sub x1 x0 = x1 - x0) by (apply wrap_id; int_unfold; lia).
  assert (Eh : Int.sub y1 y0 = y1 - y0) by (apply wrap_id; int_unfold; lia).
  unfold square; cbn [X Y Min Max]. rewrite Ew, Eh.
  destruct (Z.gtb_spec (y1 - y0) (x1 - x0)) as [Hgt | Hle].
  - set (d := y1 - y0 - (x1 - x0)).
    assert (Ed : Int.sub (y1 - y0) (x1 - x0) = d) by (apply wrap_id; int_unfold; lia).
    rewrite Ed.
    assert (Hq : 0 <= Z.quot d 2 /\ d = 2 * Z.quot d 2 + Z.rem d 2 /\ 0 <= Z.rem d 2 < 2).
    { pose proof (Z.quot_rem d 2 ltac:(lia)).
      pose proof (Z.rem_bound_pos d 2 ltac:(lia) ltac:(lia)).
      pose proof (Z.quot_pos d 2 ltac:(lia) ltac:(lia)). lia. }
    set (q := Z.quot d 2) in *.
    assert (Eq : Int.quo d 2 = q) by (apply wrap_id; int_unfold; lia).
    rewrite Eq.
    assert (Er : Int.sub d q = d - q) by (apply wrap_id; int_unfold; lia).
    rewrite Er.
    assert (E1 : Int.sub x0 q = x0 - q) by (apply wrap_id; int_unfold; lia).
    assert (E2 : Int.add x1 (d - q) = x1 + (d - q)) by (apply wrap_id; int_unfold; lia).
    rewrite E1, E2.
    exists q, (d - q), 0, 0. rewrite !Z.sub_0_r, !Z.add_0_r.
    split; [reflexivity | lia].
  - destruct (Z.gtb_spec (x1 - x0) (y1 - y0)) as [Hgt | Hle'].
    + set (d := x1 - x0 - (y1 - y0)).
      assert (Ed : Int.sub (x1 - x0) (y1 - y0) = d) by (apply wrap_id; int_unfold; lia).
      rewrite Ed.
      assert (Hq : 0 <= Z.quot d 2 /\ d = 2 * Z.quot d 2 + Z.rem d 2 /\ 0 <= Z.rem d 2 < 2).
      { pose proof (Z.quot_rem d 2 ltac:(lia)).
        pose proof (Z.rem_bound_pos d 2 ltac:(lia) ltac:(lia)).
        pose proof (Z.quot_pos d 2 ltac:(lia) ltac:(lia)). lia. }
      set (q := Z.quot d 2) in *.
      assert (Eq : Int.quo d 2 = q) by (apply wrap_id; int_unfold; lia).
      rewrite Eq.
      assert (Er : Int.sub d q = d - q) by (apply wrap_id; int_unfold; lia).
      rewrite Er.
      assert (E1 : Int.sub y0 q = y0 - q) by (apply wrap_id; int_unfold; lia).
      assert (E2 : Int.add y1 (d - q) = y1 + (d - q)) by (apply wrap_id; int_unfold; lia).
      rewrite E1, E2.
      exists 0, 0, q, (d - q). rewrite !Z.sub_0_r, !Z.add_0_r.
      split; [reflexivity | lia].
    + exists 0, 0, 0, 0. rewrite !Z.sub_0_r, !Z.add_0_r.
      split; [reflexivity | lia].
Qed.

Lemma clamp_contained_iff (box bounds : Rectangle) :
  small_rect bounds -> well_formed box -> contained box bounds ->
  contained (insideOf (square box) bounds) bounds <->
  Z.max (Dx box) (Dy box) <= Z.min (Dx bounds) (Dy bounds).
Proof.
  intros Hs Hw Hc.
  assert (Hsb : small_rect box).
  { destruct box as [[x0 y0] [x1 y1]], bounds as [[bx0 by0] [bx1 by1]].
    unfold small_rect, small, well_formed, contained in *; cbn [X Y Min Max] in *. lia. }
  destruct (square_pads box Hsb Hw)
    as (l & r & t & b & Esq & Hl & Hr & Ht & Hb & Hlr & Htb & Ew & Eh).
  rewrite insideOf_clamp, Esq. cbn [X Y Min Max].
  destruct box as [[x0 y0] [x1 y1]], bounds as [[bx0 by0] [bx1 by1]].
  unfold small_rect, small, well_formed, contained in *; cbn [X Y Min Max] in *.
  assert (EW : Dx (mkRect (mkPoint bx0 by0) (mkPoint bx1 by1)) = bx1 - bx0)
    by (apply wrap_id; int_unfold; lia).
  assert (EH : Dy (mkRect (mkPoint bx0 by0) (mkPoint bx1 by1)) = by1 - by0)
    by (apply wrap_id; int_unfold; lia).
  rewrite EW, EH.
  pose proof (clamp_fits bx0 bx1 (x0 - l) (x1 + r)) as Cx.
  pose proof (clamp_fits by0 by1 (y0 - t) (y1 + b)) as Cy.
  unfold small in Cx, Cy. cbv zeta in Cx, Cy.
  cbv zeta. cbn [X Y Min Max].
  lia.
Qed.

(** ** The bounding box computed by [Center] *)

Lemma Center_step_inv (bounds : Rectangle) (acc : Z * Z * Z * Z) (p : Point) :
  within bounds p -> box_inv bounds acc -> box_inv bounds (Center_step acc p).
Proof.
  destruct acc as [[[minX minY] maxX] maxY], p as [px py].
  unfold within, box_inv, Center_step; cbn [X Y].
  intros Hp Hi.
  destruct (Z.ltb_spec px minX), (Z.ltb_spec py minY),
    (Z.gtb_spec px maxX), (Z.gtb_spec py maxY); lia.
Qed.

Lemma Center_fold_inv (bounds : Rectangle) (points : list Point) :
  forall acc, Forall (within bounds) points -> box_inv bounds acc ->
  box_inv bounds (fold_left Center_step points acc).
Proof.
  induction points as [| p ps IH]; intros acc Hall Hi; [exact Hi |].
  inversion Hall as [| ? ? Hp Hps]; subst.
  cbn [fold_left]. apply IH; [exact Hps |].
  now apply Center_step_inv.
Qed.

Lemma Center_first_step (bounds : Rectangle) (p : Point) :
  within bounds p ->
  Center_step (X (Max bounds), Y (Max bounds), X (Min bounds), Y (Min bounds)) p
  = (X p, Y p, X p, Y p).
Proof.
  destruct p as [px py], bounds as [[bx0 by0] [bx1 by1]].
  unfold within, Center_step; cbn [X Y Min Max]. intros Hp.
  destruct (Z.ltb_spec px bx1), (Z.ltb_spec py by1),
    (Z.gtb_spec px bx0), (Z.gtb_spec py by0);
    repeat f_equal; lia.
Qed.

Lemma Center_box_contained (points : list Point) (bounds : Rectangle) :
  points <> [] -> Forall (within bounds) points ->
  well_formed (Center_box points bounds) /\
  contained (Center_box points bounds) bounds.
Proof.
  destruct points as [| p ps]; [congruence |]. intros _ Hall.
  inversion Hall as [| ? ? Hp Hps]; subst.
  unfold Center_box. cbn [fold_left]. rewrite Center_first_step by exact Hp.
  pose proof (Center_fold_inv bounds ps (X p, Y p, X p, Y p) Hps) as Hinv.
  destruct (fold_left Center_step ps (X p, Y p, X p, Y p))
    as [[[minX minY] maxX] maxY].
  unfold box_inv, within, well_formed, contained in *; cbn [X Y Min Max].
  lia.
Qed.

(** ** The box of [Center] and the bounding box of the points *)

Lemma Center_fold_min_max (ps : list Point) :
  forall a b c d : Z,
    fold_left Center_step ps (a, b, c, d)
    = (fold_left Z.min (map X ps) a, fold_left Z.min (map Y ps) b,
       fold_left Z.max (map X ps) c, fold_left Z.max (map Y ps) d).
Proof.
  induction ps as [| p ps IH]; intros a b c d; [reflexivity |].
  cbn [fold_left map]. unfold Center_step at 2.
  replace (if X p <? a then X p else a) with (Z.min a (X p))
    by (destruct (Z.ltb_spec (X p) a); lia).
  replace (if Y p <? b then Y p else b) with (Z.min b (Y p))
    by (destruct (Z.ltb_spec (Y p) b); lia).
  replace (if X p >? c then X p else c) with (Z.max c (X p))
    by (destruct (Z.gtb_spec (X p) c); lia).
  replace (if Y p >? d then Y p else d) with (Z.max d (Y p))
    by (destruct (Z.gtb_spec (Y p) d); lia).
  apply IH.
Qed.

Lemma fold_min_absorb (l : list Z) :
  forall a b : Z,
    Exists (fun v => v <= b) (a :: l) ->
    fold_left Z.min l (Z.min b a) = fold_left Z.min l a.
Proof.
  induction l as [| x l IH]; intros a b H.
  - cbn [fold_left]. inversion H as [? ? Ha | ? ? Hl]; subst; [lia | inversion Hl].
  - cbn [fold_left]. rewrite <- Z.min_assoc. apply IH.
    inversion H as [? ? Ha | ? ? Hl]; subst.
    + left. lia.
    + inversion Hl as [? ? Hx | ? ? Hl']; subst; [left; lia | right; exact Hl'].
Qed.

Lemma fold_max_absorb (l : list Z) :
  forall a b : Z,
    Exists (fun v => b <= v) (a :: l) ->
    fold_left Z.max l (Z.max b a) = fold_left Z.max l a.
Proof.
  induction l as [| x l IH]; intros a b H.
  - cbn [fold_left]. inversion H as [? ? Ha | ? ? Hl]; subst; [lia | inversion Hl].
  - cbn [fold_left]. rewrite <- Z.max_assoc. apply IH.
    inversion H as [? ? Ha | ? ? Hl]; subst.
    + left. lia.
    + inversion Hl as [? ? Hx | ? ? Hl']; subst; [left; lia | right; exact Hl'].
Qed.

(** The box the loop of [Center] keeps starts from the corners of the
    image, not from the first point: it is the bounding box of the points
    as soon as one of the points lies within the image. *)
Lemma Center_box_bounding_box (p : Point) (ps : list Point) (bounds : Rectangle) :
  Exists (within bounds) (p :: ps) ->
  Center_box (p :: ps) bounds = bounding_box p ps.
Proof.
  intros H. unfold Center_box, bounding_box. rewrite Center_fold_min_max.
  cbn [map fold_left].
  rewrite !fold_min_absorb, !fold_max_absorb; [reflexivity | | | |].
  all: change (Y p :: map Y ps) with (map Y (p :: ps));
    change (X p :: map X ps) with (map X (p :: ps));
    apply List.Exists_exists in H as (q & Hin & (Hx & Hy));
    apply List.Exists_exists; eexists; (split; [apply in_map, Hin |]); lia.
Qed.

(** ** Claims about the geometry *)




(** C1, amended: for landmark points that all lie within the full image's
    bounds, the rectangle [insideOf (square box) bounds] is square, and it
    is contained in the bounds exactly when the larger side of the box of
    the points does not exceed the smaller side of the full image. *)
Theorem Center_rect_square_contained_iff (points : list Point) (bounds : Rectangle) :
  small_rect bounds -> points <> [] -> Forall (within bounds) points ->
  let box := Center_box points bounds in
  let rect := Center_rect points bounds in
  Dx rect = Dy rect /\
  (contained rect bounds <->
   Z.max (Dx box) (Dy box) <= Z.min (Dx bounds) (Dy bounds)).
Proof.
  intros Hs Hne Hall box rect. split.
  - unfold rect, Center_rect.
    now rewrite insideOf_Dx, insideOf_Dy, square_Dx, square_Dy.
  - destruct (Center_box_contained points bounds Hne Hall) as [Hw Hc].
    unfold rect, Center_rect. now apply clamp_contained_iff.
Qed.

(** ** [PointsOnImage] *)

Lemma index_lookup {A : Type} (l : list A) (n : nat) (a : A) :
  l !! n = Some a -> index l (Z.of_nat n) = Returned a.
Proof.
  intros H. unfold index.
  destruct (Z.ltb_spec (Z.of_nat n) 0); [lia |].
  now rewrite Nat2Z.id, H.
Qed.

Lemma index_panics {A : Type} (l : list A) (i : Z) :
  i < 0 \/ len l <= i -> index l i = Panicked.
Proof.
  intros H. unfold index, len in *.
  destruct (Z.ltb_spec i 0); [reflexivity |].
  destruct (l !! Z.to_nat i) eqn:E; [| reflexivity].
  apply lookup_lt_Some in E. lia.
Qed.

Lemma list_pairs_ind {A : Type} (P : list A -> Prop) :
  P [] -> (forall x, P [x]) -> (forall x y rest, P rest -> P (x :: y :: rest)) ->
  forall l, P l.
Proof.
  intros H0 H1 H2 l.
  assert (H : P l /\ forall a, P (a :: l)).
  { induction l as [| b l [IHl IHl']]; [split; auto |].
    split; [apply IHl' |]. intros a. apply H2, IHl. }
  apply H.
Qed.

Lemma points_of_pairs_short (w h : float32) (minX minY : Z) (coords : list float32) :
  (length coords < 2)%nat -> points_of_pairs w h minX minY coords = [].
Proof.
  destruct coords as [| x [| y rest]]; cbn [length points_of_pairs]; intros; (reflexivity || lia).
Qed.

Lemma points_of_pairs_length (w h : float32) (minX minY : Z) (coords : list float32) :
  length (points_of_pairs w h minX minY coords) = (length coords / 2)%nat.
Proof.
  induction coords as [| x | x y rest IH] using list_pairs_ind;
    [reflexivity | reflexivity |].
  cbn [points_of_pairs length]. rewrite IH.
  change (S (S (length rest))) with (1 * 2 + length rest)%nat.
  rewrite Nat.div_add_l by lia. lia.
Qed.

Lemma PointsOnImage_loop (l : Landmarks) (w h : float32) (minX minY : Z) :
  slice_ok (Coords l) ->
  forall (fuel k : nat) (acc : list Point),
    (2 * k <= length (Coords l))%nat ->
    (length (Coords l) - 2 * k <= 2 * fuel)%nat ->
    for_loop fuel (fun i => i <? Int.sub (len (Coords l)) 1) (fun i => Int.add i 2)
      (PointsOnImage_body l w h minX minY) (Z.of_nat (2 * k)) acc
    = Returned (acc ++ points_of_pairs w h minX minY (drop (2 * k) (Coords l))).
Proof.
  intros Hok. unfold slice_ok, len in Hok.
  assert (Hsub : Int.sub (len (Coords l)) 1 = len (Coords l) - 1).
  { apply wrap_id. unfold len. int_unfold. lia. }
  rewrite Hsub. unfold len.
  induction fuel as [| fuel IH]; intros k acc Hk Hfuel.
  - cbn [for_loop].
    destruct (Z.ltb_spec (Z.of_nat (2 * k)) (Z.of_nat (length (Coords l)) - 1)); [lia |].
    rewrite points_of_pairs_short by (rewrite length_drop; lia).
    now rewrite app_nil_r.
  - cbn [for_loop].
    destruct (Z.ltb_spec (Z.of_nat (2 * k)) (Z.of_nat (length (Coords l)) - 1)) as [Hlt | Hge].
    + destruct (lookup_lt_is_Some_2 (Coords l) (2 * k) ltac:(lia)) as [cx Hx].
      destruct (lookup_lt_is_Some_2 (Coords l) (S (2 * k)) ltac:(lia)) as [cy Hy].
      assert (E1 : Int.add (Z.of_nat (2 * k)) 1 = Z.of_nat (S (2 * k))).
      { rewrite Nat2Z.inj_succ. apply wrap_id. int_unfold. lia. }
      assert (E2 : Int.add (Z.of_nat (2 * k)) 2 = Z.of_nat (2 * S k)).
      { replace (Z.of_nat (2 * S k)) with (Z.of_nat (2 * k) + 2) by lia.
        apply wrap_id. int_unfold. lia. }
      unfold PointsOnImage_body at 1.
      rewrite (index_lookup _ _ _ Hx), E1, (index_lookup _ _ _ Hy).
      cbn [obind]. rewrite E2, IH by lia.
      rewrite (drop_S _ _ _ Hx), (drop_S _ _ _ Hy).
      cbn [points_of_pairs]. rewrite <- app_assoc. cbn [app].
      replace (S (S (2 * k))) with (2 * S k)%nat by lia. reflexivity.
    + rewrite points_of_pairs_short by (rewrite length_drop; lia).
      now rewrite app_nil_r.
Qed.

Lemma PointsOnImage_pairs (l : Landmarks) (img : Image) :
  slice_ok (Coords l) ->
  PointsOnImage l img =
  Returned (points_of_pairs (F32.of_int (Dx (Bounds img))) (F32.of_int (Dy (Bounds img)))
              (X (Min (Bounds img))) (Y (Min (Bounds img))) (Coords l)).
Proof.
  intros Hok. unfold PointsOnImage.
  rewrite (PointsOnImage_loop l _ _ _ _ Hok (length (Coords l)) 0 []) by lia.
  reflexivity.
Qed.

Lemma points_of_pairs_lookup (w h : float32) (minX minY : Z) (coords : list float32) :
  forall (k : nat) (p : Point),
    points_of_pairs w h minX minY coords !! k = Some p ->
    exists cx cy : float32,
      coords !! (2 * k)%nat = Some cx /\ coords !! (2 * k + 1)%nat = Some cy /\
      p = mkPoint (Int.add minX (F32.to_int (F32.mul w cx)))
                  (Int.add minY (F32.to_int (F32.mul h cy))).
Proof.
  induction coords as [| x | x y rest IH] using list_pairs_ind;
    intros k p Hk; [discriminate | discriminate |].
  cbn [points_of_pairs] in Hk.
  destruct k as [| k].
  - injection Hk as <-. exists x, y. repeat split; reflexivity.
  - cbn [lookup list_lookup] in Hk.
    destruct (IH k p Hk) as (cx & cy & Hx & Hy & Hp).
    exists cx, cy. replace (2 * S k)%nat with (S (S (2 * k))) by lia.
    repeat split; assumption.
Qed.

(** C9: [PointsOnImage] returns, without panic for any length of the
    coordinate slice, exactly [floor (len Coords / 2)] points; the [k]-th
    point is the image's minimum corner offset by the truncated products
    of the width with coordinate [2k] and of the height with coordinate
    [2k+1]; a trailing unpaired coordinate is not used. *)
Theorem PointsOnImage_pairs_up (l : Landmarks) (img : Image) :
  slice_ok (Coords l) ->
  exists points : list Point,
    PointsOnImage l img = Returned points /\
    length points = (length (Coords l) / 2)%nat /\
    forall (k : nat) (p : Point), points !! k = Some p ->
      exists cx cy : float32,
        Coords l !! (2 * k)%nat = Some cx /\ Coords l !! (2 * k + 1)%nat = Some cy /\
        p = mkPoint
              (Int.add (X (Min (Bounds img)))
                 (F32.to_int (F32.mul (F32.of_int (Dx (Bounds img))) cx)))
              (Int.add (Y (Min (Bounds img)))
                 (F32.to_int (F32.mul (F32.of_int (Dy (Bounds img))) cy))).
Proof.
  intros Hok. eexists. split; [apply PointsOnImage_pairs, Hok |]. split.
  - apply points_of_pairs_length.
  - apply points_of_pairs_lookup.
Qed.

(** ** Floating-point facts used for [DistanceTo] *)

Lemma binary_round_aux_opp (prec emax : Z) (s : bool) (m e : Z) (l : location) :
  binary_round_aux prec emax (negb s) m e l
  = SFopp (binary_round_aux prec emax s m e l).
Proof.
  unfold binary_round_aux.
  destruct (shr_fexp prec emax m e l) as [mrs' e'].
  destruct (shr_fexp prec emax _ e' loc_Exact) as [mrs'' e''].
  destruct (shr_m mrs''); [reflexivity | | reflexivity].
  destruct (e'' <=? emax - prec); reflexivity.
Qed.

Lemma binary_round_opp (prec emax : Z) (s : bool) (m : positive) (e : Z) :
  binary_round prec emax (negb s) m e = SFopp (binary_round prec emax s m e).
Proof.
  unfold binary_round.
  destruct (shl_align m e _) as [mz ez]. apply binary_round_aux_opp.
Qed.

Lemma binary_normalize_opp (prec emax : Z) (m e : Z) :
  m <> 0 ->
  binary_normalize prec emax (- m) e false
  = SFopp (binary_normalize prec emax m e false).
Proof.
  destruct m as [| p | p]; [congruence | |]; intros _; cbn [Z.opp binary_normalize].
  - apply (binary_round_opp prec emax false).
  - change (binary_round prec emax true p e)
      with (binary_round prec emax (negb false) p e).
    rewrite binary_round_opp.
    change (- Z.neg p) with (Z.pos p). cbn [binary_normalize].
    now destruct (binary_round prec emax false p e) as [[] | [] | | [] ? ?].
Qed.

(** Swapping the operands of a subtraction negates the result, except
    that [x - x] is [+0] both ways. *)
Lemma sub_swap (x y : float32) :
  F32.sub y x = SFopp (F32.sub x y) \/
  (F32.sub x y = S754_zero false /\ F32.sub y x = S754_zero false).
Proof.
  unfold F32.sub.
  destruct x as [sx | sx | | sx mx ex], y as [sy | sy | | sy my ey];
    try (destruct sx, sy; cbn; auto; fail);
    try (destruct sx; cbn; auto; fail);
    try (destruct sy; cbn; auto; fail);
    try (cbn; auto; fail).
  cbn [SFsub]. rewrite (Z.min_comm ey ex).
  set (A := cond_Zopp sx (Z.pos (fst (shl_align mx ex (Z.min ex ey))))).
  set (B := cond_Zopp sy (Z.pos (fst (shl_align my ey (Z.min ex ey))))).
  destruct (Z.eq_dec (A - B) 0) as [E | NE].
  - right. replace (B - A) with 0 by lia. rewrite E. split; reflexivity.
  - left. replace (B - A) with (- (A - B)) by lia.
    now apply binary_normalize_opp.
Qed.

Lemma mul_opp_opp (x : float32) : F32.mul (SFopp x) (SFopp x) = F32.mul x x.
Proof.
  unfold F32.mul. destruct x as [s | s | | s m e]; cbn [SFopp SFmul];
    try reflexivity; now destruct s.
Qed.

Lemma squared_difference_sym (x y : float32) :
  squared_difference x y = squared_difference y x.
Proof.
  unfold squared_difference.
  destruct (sub_swap x y) as [E | [E1 E2]].
  - now rewrite E, mul_opp_opp.
  - now rewrite E1, E2.
Qed.

Lemma squared_difference_diag (x : float32) :
  F32.is_finite x = true -> squared_difference x x = F32.zero.
Proof.
  unfold squared_difference, F32.sub, F32.mul, F32.zero.
  destruct x as [s | s | | s m e]; cbn [F32.is_finite]; intros H; try discriminate.
  - now destruct s.
  - cbn [SFsub]. rewrite Z.sub_diag. reflexivity.
Qed.

Lemma eqb_refl (x : float32) : F32.is_nan x = false -> F32.eqb x x = true.
Proof.
  unfold F32.eqb, SFeqb.
  destruct x as [s | s | | s m e]; cbn [F32.is_nan SFcompare]; intros H;
    try discriminate; try (now destruct s).
  destruct s; rewrite Z.compare_refl, Pos.compare_cont_refl; reflexivity.
Qed.

(** ** Signs of rounded results *)

Lemma shr_1_nonneg (mrs : shr_record) : 0 <= shr_m mrs -> 0 <= shr_m (shr_1 mrs).
Proof.
  destruct mrs as [m r s]. cbn [shr_m shr_1].
  destruct m as [| [p | p |] | p]; cbn [shr_m]; lia.
Qed.

Lemma iter_shr_1_nonneg (p : positive) :
  forall mrs : shr_record, 0 <= shr_m mrs -> 0 <= shr_m (SpecFloat.iter_pos shr_1 p mrs).
Proof.
  induction p as [p IH | p IH |]; intros mrs H; cbn [SpecFloat.iter_pos].
  - apply IH, IH, shr_1_nonneg, H.
  - apply IH, IH, H.
  - apply shr_1_nonneg, H.
Qed.

Lemma shr_fexp_nonneg (prec emax m e : Z) (l : location) :
  0 <= m -> 0 <= shr_m (fst (shr_fexp prec emax m e l)).
Proof.
  intros H. unfold shr_fexp, shr.
  assert (H0 : 0 <= shr_m (shr_record_of_loc m l))
    by (destruct l as [| []]; exact H).
  destruct (fexp prec emax (Zdigits2 m + e) - e) as [| p | p]; cbn [fst]; try exact H0.
  now apply iter_shr_1_nonneg.
Qed.

Lemma round_nearest_even_nonneg (m : Z) (l : location) :
  0 <= m -> 0 <= round_nearest_even m l.
Proof.
  intros H. unfold round_nearest_even.
  destruct l as [| []]; try lia. destruct (Z.even m); lia.
Qed.

Lemma binary_round_aux_sign (prec emax : Z) (s : bool) (m e : Z) (l : location) :
  0 <= m -> has_sign s (binary_round_aux prec emax s m e l) = true.
Proof.
  intros H. unfold binary_round_aux.
  pose proof (shr_fexp_nonneg prec emax m e l H) as H1.
  destruct (shr_fexp prec emax m e l) as [mrs' e']. cbn [fst] in H1.
  pose proof (shr_fexp_nonneg prec emax
                (round_nearest_even (shr_m mrs') (loc_of_shr_record mrs')) e' loc_Exact
                (round_nearest_even_nonneg _ _ H1)) as H2.
  destruct (shr_fexp prec emax _ e' loc_Exact) as [mrs'' e'']. cbn [fst] in H2.
  destruct (shr_m mrs'') as [| p | p]; [| | lia].
  - cbn [has_sign]. now destruct s.
  - destruct (e'' <=? emax - prec); cbn [has_sign]; now destruct s.
Qed.

Lemma binary_round_sign (prec emax : Z) (s : bool) (m : positive) (e : Z) :
  has_sign s (binary_round prec emax s m e) = true.
Proof.
  unfold binary_round. destruct (shl_align m e _) as [mz ez].
  apply binary_round_aux_sign. lia.
Qed.

Lemma binary_normalize_not_nan (prec emax m e : Z) (szero : bool) :
  F32.is_nan (binary_normalize prec emax m e szero) = false.
Proof.
  destruct m as [| p | p]; cbn [binary_normalize]; [reflexivity | |].
  - pose proof (binary_round_sign prec emax false p e) as H.
    now destruct (binary_round prec emax false p e).
  - pose proof (binary_round_sign prec emax true p e) as H.
    now destruct (binary_round prec emax true p e).
Qed.

Lemma binary_normalize_pos_sign (prec emax : Z) (p : positive) (e : Z) (s : bool) :
  has_sign false (binary_normalize prec emax (Z.pos p) e s) = true.
Proof. apply binary_round_sign. Qed.

Lemma sub_finite_not_nan (x y : float32) :
  F32.is_finite x = true -> F32.is_finite y = true -> F32.is_nan (F32.sub x y) = false.
Proof.
  unfold F32.sub.
  destruct x as [sx | sx | | sx mx ex], y as [sy | sy | | sy my ey];
    cbn [F32.is_finite]; intros Hx Hy; try discriminate.
  - now destruct sx, sy.
  - reflexivity.
  - reflexivity.
  - cbn [SFsub]. apply binary_normalize_not_nan.
Qed.

Lemma mul_self_sign (x : float32) :
  F32.is_nan x = false -> has_sign false (F32.mul x x) = true.
Proof.
  unfold F32.mul.
  destruct x as [s | s | | s m e]; cbn [F32.is_nan SFmul]; intros H; try discriminate.
  - now destruct s.
  - now destruct s.
  - rewrite xorb_nilpotent. apply binary_round_aux_sign. lia.
Qed.

Lemma add_sign (x y : float32) :
  has_sign false x = true -> has_sign false y = true ->
  has_sign false (F32.add x y) = true.
Proof.
  unfold F32.add.
  destruct x as [[] | [] | | [] mx ex], y as [[] | [] | | [] my ey];
    cbn [has_sign Bool.eqb]; intros Hx Hy; try discriminate; try reflexivity.
  cbn [SFadd cond_Zopp]. apply binary_normalize_pos_sign.
Qed.

Lemma sum_squares_sign (d d2 : list float32) :
  Forall (fun x => F32.is_finite x = true) d ->
  Forall (fun x => F32.is_finite x = true) d2 ->
  forall sum : float32,
    has_sign false sum = true -> has_sign false (sum_squares sum d d2) = true.
Proof.
  intros Hd. revert d2.
  induction Hd as [| x d Hx Hd IH]; intros d2 Hd2 sum Hs; [exact Hs |].
  destruct Hd2 as [| y d2 Hy Hd2]; [exact Hs |].
  cbn [sum_squares]. apply IH; [exact Hd2 |].
  apply add_sign; [exact Hs |].
  apply mul_self_sign, sub_finite_not_nan; assumption.
Qed.

Lemma sqrt_sign (x : float32) :
  has_sign false x = true -> has_sign false (F64.sqrt x) = true.
Proof.
  unfold F64.sqrt.
  destruct x as [[] | [] | | [] m e]; cbn [has_sign Bool.eqb]; intros H;
    try discriminate; try reflexivity.
  cbn [SFsqrt]. unfold SFsqrt_core_binary.
  set (m' := match e - 2 * _ with Z.pos _ => _ | 0 => _ | Z.neg _ => _ end).
  assert (Hm' : 0 <= m').
  { subst m'. destruct (e - 2 * _) as [| p | p]; try lia.
    apply Z.shiftl_nonneg. lia. }
  pose proof (Z.sqrtrem_spec m' Hm') as Hq.
  destruct (Z.sqrtrem m') as [q r].
  apply binary_round_aux_sign. lia.
Qed.

(** ** [DistanceTo] *)

Lemma sum_squares_fold (d d2 : list float32) :
  forall sum : float32,
    sum_squares sum d d2 = fold_left F32.add (zip_with squared_difference d d2) sum.
Proof.
  revert d2. induction d as [| x d IH]; intros [| y d2] sum; try reflexivity.
  cbn [sum_squares zip_with fold_left]. apply IH.
Qed.

Lemma sum_squares_sym (d d2 : list float32) :
  forall sum : float32, sum_squares sum d d2 = sum_squares sum d2 d.
Proof.
  revert d2. induction d as [| x d IH]; intros [| y d2] sum; try reflexivity.
  cbn [sum_squares]. fold (squared_difference x y) (squared_difference y x).
  rewrite (squared_difference_sym x y). apply IH.
Qed.

Lemma sum_squares_diag (d : list float32) :
  Forall (fun x => F32.is_finite x = true) d -> sum_squares F32.zero d d = F32.zero.
Proof.
  induction 1 as [| x d Hx Hd IH]; [reflexivity |].
  cbn [sum_squares]. fold (squared_difference x x).
  rewrite (squared_difference_diag x Hx). exact IH.
Qed.

Lemma DistanceTo_loop (d d2 : list float32) :
  slice_ok d -> length d = length d2 ->
  forall (fuel k : nat) (sum : float32),
    (k <= length d)%nat -> (length d - k <= fuel)%nat ->
    for_loop fuel (fun i => i <? len d) (fun i => Int.add i 1)
      (DistanceTo_body d d2) (Z.of_nat k) sum
    = Returned (sum_squares sum (drop k d) (drop k d2)).
Proof.
  intros Hok Hlen. unfold slice_ok in Hok. unfold len in *.
  induction fuel as [| fuel IH]; intros k sum Hk Hfuel.
  - cbn [for_loop].
    destruct (Z.ltb_spec (Z.of_nat k) (Z.of_nat (length d))); [lia |].
    rewrite (drop_ge d k) by lia. reflexivity.
  - cbn [for_loop].
    destruct (Z.ltb_spec (Z.of_nat k) (Z.of_nat (length d))) as [Hlt | Hge].
    + destruct (lookup_lt_is_Some_2 d k ltac:(lia)) as [x Hx].
      destruct (lookup_lt_is_Some_2 d2 k ltac:(lia)) as [y Hy].
      assert (E : Int.add (Z.of_nat k) 1 = Z.of_nat (S k)).
      { rewrite Nat2Z.inj_succ. apply wrap_id. int_unfold. lia. }
      unfold DistanceTo_body at 1.
      rewrite (index_lookup _ _ _ Hx), (index_lookup _ _ _ Hy).
      cbn [obind]. rewrite E, IH by lia.
      rewrite (drop_S _ _ _ Hx), (drop_S _ _ _ Hy). reflexivity.
    + rewrite (drop_ge d k) by lia. reflexivity.
Qed.

Lemma DistanceTo_equal_length (d d2 : Descriptors) :
  slice_ok d -> length d = length d2 ->
  DistanceTo d d2 = Returned (euclidean d d2, None).
Proof.
  intros Hok Hlen. unfold DistanceTo.
  destruct (Z.eqb_spec (len d) (len d2)) as [_ | NE]; [| unfold len in NE; lia].
  cbn [negb].
  pose proof (DistanceTo_loop d d2 Hok Hlen (length d) 0 F32.zero) as Hloop.
  change (Z.of_nat 0) with 0 in Hloop. rewrite Hloop by lia.
  cbn [obind drop]. unfold euclidean. now rewrite sum_squares_fold.
Qed.

Lemma DistanceTo_unequal_length (d d2 : Descriptors) :
  length d <> length d2 ->
  DistanceTo d d2 =
  Returned (F32.zero,
            Some (Errorf_dd "cannot calculate distance between descriptors of dimensions "
                            (len d) " and " (len d2))).
Proof.
  intros Hlen. unfold DistanceTo, len.
  destruct (Z.eqb_spec (Z.of_nat (length d)) (Z.of_nat (length d2))); [lia | reflexivity].
Qed.

Lemma euclidean_sym (a b : Descriptors) : euclidean a b = euclidean b a.
Proof.
  unfold euclidean. rewrite <- !sum_squares_fold. now rewrite sum_squares_sym.
Qed.

Lemma euclidean_diag (a : Descriptors) :
  Forall (fun x => F32.is_finite x = true) a -> euclidean a a = F32.zero.
Proof.
  intros H. unfold euclidean. rewrite <- sum_squares_fold.
  now rewrite (sum_squares_diag a H).
Qed.

Lemma euclidean_not_nan (a b : Descriptors) :
  Forall (fun x => F32.is_finite x = true) a ->
  Forall (fun x => F32.is_finite x = true) b ->
  F32.is_nan (euclidean a b) = false.
Proof.
  intros Ha Hb. unfold euclidean. rewrite <- sum_squares_fold.
  pose proof (sum_squares_sign a b Ha Hb F32.zero eq_refl) as Hs.
  assert (H64 : has_sign false (F64.of_f32 (sum_squares F32.zero a b)) = true).
  { destruct (sum_squares F32.zero a b) as [[] | [] | | [] m e];
      try discriminate; try reflexivity.
    apply binary_normalize_pos_sign. }
  apply sqrt_sign in H64.
  destruct (F64.sqrt _) as [[] | [] | | [] m e]; try discriminate; try reflexivity.
  cbn [F64.to_f32 cond_Zopp]. apply binary_normalize_not_nan.
Qed.

(** C6: on descriptors of unequal lengths [DistanceTo] returns the
    dimension error (with the value 0, nothing being computed), it never
    panics, and it returns an error exactly when the lengths differ. *)
Theorem DistanceTo_fails_iff_lengths_differ (d d2 : Descriptors) :
  slice_ok d ->
  (length d <> length d2 ->
   DistanceTo d d2 =
   Returned (F32.zero,
             Some (Errorf_dd "cannot calculate distance between descriptors of dimensions "
                             (len d) " and " (len d2)))) /\
  DistanceTo d d2 <> Panicked /\
  DistanceTo d d2 <> OutOfFuel /\
  ((exists (v : float32) (err : error), DistanceTo d d2 = Returned (v, Some err))
   <-> length d <> length d2).
Proof.
  intros Hok.
  destruct (Nat.eq_dec (length d) (length d2)) as [E | NE].
  - rewrite (DistanceTo_equal_length d d2 Hok E).
    repeat split; try congruence.
    intros (v & err & H). congruence.
  - rewrite (DistanceTo_unequal_length d d2 NE).
    repeat split; try congruence. intros _. eauto.
Qed.

(** C5, amended: on descriptors of equal length [DistanceTo] succeeds and
    returns the square root of the left-to-right sum of the squared
    differences, in [float32] arithmetic with the root taken in
    [float64]; the two argument orders give the same value, equal under
    [==] unless it is NaN; when all entries are finite the value is not
    NaN; the distance of a descriptor with finite entries to itself is 0;
    and from [0,0,0] to [3,4,0] it is 5. *)
Theorem DistanceTo_euclidean (a b : Descriptors) :
  slice_ok a -> length a = length b ->
  DistanceTo a b = Returned (euclidean a b, None) /\
  DistanceTo b a = Returned (euclidean a b, None) /\
  (F32.is_nan (euclidean a b) = false ->
   F32.eqb (euclidean a b) (euclidean b a) = true) /\
  (Forall (fun x => F32.is_finite x = true) a ->
   Forall (fun x => F32.is_finite x = true) b ->
   F32.is_nan (euclidean a b) = false) /\
  (Forall (fun x => F32.is_finite x = true) a ->
   DistanceTo a a = Returned (F32.zero, None)) /\
  DistanceTo [F32.zero; F32.zero; F32.zero] [F32.of_int 3; F32.of_int 4; F32.zero]
  = Returned (F32.of_int 5, None).
Proof.
  intros Hok Hlen.
  assert (Hokb : slice_ok b) by (unfold slice_ok, len in *; now rewrite <- Hlen).
  split; [| split; [| split; [| split; [| split]]]].
  - now apply DistanceTo_equal_length.
  - rewrite (euclidean_sym a b). now apply DistanceTo_equal_length.
  - intros Hnan. rewrite <- (euclidean_sym a b). now apply eqb_refl.
  - apply euclidean_not_nan.
  - intros Hfin. rewrite (DistanceTo_equal_length a a Hok eq_refl).
    now rewrite (euclidean_diag a Hfin).
  - vm_compute. reflexivity.
Qed.

(** ** [Above] *)

Lemma Above_fold (threshold : float32) (l : list Detection) :
  forall acc : list Detection,
    fold_left
      (fun above d => if F32.ltb (Score d) threshold then above else above ++ [d])
      l acc
    = acc ++ List.filter (fun d => negb (F32.ltb (Score d) threshold)) l.
Proof.
  induction l as [| d l IH]; intros acc; cbn [fold_left List.filter].
  - now rewrite app_nil_r.
  - rewrite IH. destruct (F32.ltb (Score d) threshold); cbn [negb]; [reflexivity |].
    now rewrite <- app_assoc.
Qed.

Lemma Above_filter (allDetections : list Detection) (threshold : float32) :
  Above allDetections threshold
  = List.filter (fun d => negb (F32.ltb (Score d) threshold)) allDetections.
Proof. unfold Above. now rewrite Above_fold. Qed.

Lemma SFcompare_swap (x y : float32) :
  SFcompare y x = option_map CompOpp (SFcompare x y).
Proof.
  destruct x as [sx | sx | | sx mx ex], y as [sy | sy | | sy my ey];
    cbn [SFcompare option_map];
    try reflexivity;
    try (destruct sx; reflexivity); try (destruct sy; reflexivity);
    try (destruct sx, sy; reflexivity).
  pose proof (Pos.compare_cont_antisym my mx Eq) as Hm. cbn [CompOpp] in Hm.
  destruct sx, sy; try reflexivity; cbn [option_map]; f_equal;
    rewrite (Z.compare_antisym ex ey);
    destruct (ex ?= ey); cbn [CompOpp]; try reflexivity.
  - rewrite <- Hm. now destruct (Pos.compare_cont Eq my mx).
  - rewrite <- Hm. now destruct (Pos.compare_cont Eq my mx).
Qed.

(** For numbers, [!(x < t)] is [t <= x]. *)
Lemma not_ltb_leb (x t : float32) :
  F32.is_nan x = false -> F32.is_nan t = false ->
  negb (F32.ltb x t) = F32.leb t x.
Proof.
  unfold F32.ltb, F32.leb, SFltb, SFleb. intros Hx Ht.
  rewrite (SFcompare_swap x t).
  destruct (SFcompare x t) as [[| |] |] eqn:E; try reflexivity.
  destruct x, t; try discriminate; cbn in E; try discriminate;
    repeat match type of E with
    | context [if ?b then _ else _] => destruct b
    | context [match ?b with _ => _ end] => destruct b
    end; discriminate.
Qed.

Lemma Above_at_least (allDetections : list Detection) (threshold : float32) :
  F32.is_nan threshold = false ->
  Forall (fun d => F32.is_nan (Score d) = false) allDetections ->
  Above allDetections threshold
  = List.filter (fun d => F32.leb threshold (Score d)) allDetections.
Proof.
  intros Ht Hall. rewrite Above_filter.
  induction Hall as [| d l Hd Hl IH]; [reflexivity |].
  cbn [List.filter]. rewrite IH, (not_ltb_leb _ _ Hd Ht). reflexivity.
Qed.

(** ** The loop of [Extract] *)

Section ExtractFacts.

Context {W : Type} (e : Extractor W) (img : Image).

(** One turn of the loop, case by case. *)
Ltac loop_step d w :=
  cbn [Extract_loop];
  destruct (too_small d) eqn:Hsmall;
  [| destruct (Landmark e (crop img d) w) as [[lm [err |]] w1] eqn:HL;
     [| destruct lm as [l |];
        [destruct (Center l (crop img d) img) as [c2 | |] eqn:HC; cbn [obind];
         [destruct (Descriptor e c2 w1) as [[de [err |]] w2] eqn:HD | |] |]]].

(** Detections that are too small cost nothing and leave no trace. *)
Lemma Extract_loop_skips (detections : list Detection) :
  forall (images : list Image) (descrs : list Descriptors) (w : W),
    Extract_loop e img detections images descrs w
    = Extract_loop e img (List.filter (fun d => negb (too_small d)) detections)
        images descrs w.
Proof.
  induction detections as [| d rest IH]; intros images descrs w; [reflexivity |].
  cbn [List.filter]. destruct (too_small d) eqn:Hsmall; cbn [negb].
  - cbn [Extract_loop]. rewrite Hsmall. apply IH.
  - cbn [Extract_loop]. rewrite Hsmall.
    destruct (Landmark e (crop img d) w) as [[lm [err |]] w1]; [reflexivity |].
    destruct lm as [l |]; [| reflexivity].
    destruct (Center l (crop img d) img) as [c2 | |]; cbn [obind]; try reflexivity.
    destruct (Descriptor e c2 w1) as [[de [err |]] w2]; [reflexivity |].
    apply IH.
Qed.


(** A successful run of the loop, told by [processed]. *)
Lemma Extract_loop_processed (detections : list Detection) :
  forall (images0 : list Image) (descrs0 : list Descriptors) (w : W)
         (images : list Image) (descrs : list Descriptors) (w' : W),
    Extract_loop e img detections images0 descrs0 w
      = Returned ((images, descrs, None), w') <->
    exists (images1 : list Image) (descrs1 : list Descriptors),
      processed e img detections w images1 descrs1 w' /\
      images = images0 ++ images1 /\ descrs = descrs0 ++ descrs1.
Proof.
  induction detections as [| d rest IH]; intros images0 descrs0 w images descrs w'.
  - cbn [Extract_loop]. split.
    + intros H. injection H as <- <- <-. exists [], [].
      rewrite !app_nil_r. repeat split. constructor.
    + intros (images1 & descrs1 & Hp & -> & ->). inversion Hp; subst.
      now rewrite !app_nil_r.
  - loop_step d w.
    + rewrite IH. split; intros (images1 & descrs1 & Hp & -> & ->).
      * exists images1, descrs1. repeat split. now apply processed_skip.
      * inversion Hp; subst; [eauto | congruence].
    + split; [discriminate |]. intros (images1 & descrs1 & Hp & _).
      inversion Hp; subst; congruence.
    + split; [discriminate |]. intros (images1 & descrs1 & Hp & _).
      inversion Hp; subst; [congruence |].
      repeat match goal with
      | H1 : ?x = _, H2 : ?x = _ |- _ => rewrite H1 in H2; inversion H2; subst; clear H2
      end.
    + rewrite IH. split; intros (images1 & descrs1 & Hp & -> & ->).
      * exists (c2 :: images1), (de :: descrs1).
        rewrite <- !app_assoc. repeat split.
        eapply processed_face; eauto.
      * inversion Hp; subst; [congruence |].
        repeat match goal with
        | H1 : ?x = _, H2 : ?x = _ |- _ => rewrite H1 in H2; inversion H2; subst; clear H2
        end.
        eexists; eexists; split; [eassumption |].
        rewrite <- !app_assoc. now split.
    + split; [discriminate |]. intros (images1 & descrs1 & Hp & _).
      inversion Hp; subst; congruence.
    + split; [discriminate |]. intros (images1 & descrs1 & Hp & _).
      inversion Hp; subst; congruence.
    + split; [discriminate |]. intros (images1 & descrs1 & Hp & _).
      inversion Hp; subst; congruence.
Qed.

(** The loop over a list in two parts: once the first part has gone
    through, the second part starts from what it left. *)
Lemma Extract_loop_app (pre rest : list Detection) :
  forall (images0 : list Image) (descrs0 : list Descriptors) (w : W)
         (images1 : list Image) (descrs1 : list Descriptors) (w_pre : W),
    Extract_loop e img pre images0 descrs0 w
      = Returned ((images1, descrs1, None), w_pre) ->
    Extract_loop e img (pre ++ rest) images0 descrs0 w
    = Extract_loop e img rest images1 descrs1 w_pre.
Proof.
  induction pre as [| d pre IH]; intros images0 descrs0 w images1 descrs1 w_pre H.
  - cbn [Extract_loop] in H. injection H as <- <- <-. reflexivity.
  - cbn [app]. revert H. loop_step d w; intros H; try discriminate; eauto.
Qed.

End ExtractFacts.

(** ** Claims about the extractor *)

Lemma Center_Bounds (l : Landmarks) (cropped full out : Image) :
  Center l cropped full = Returned out ->
  exists points : list Point,
    PointsOnImage l cropped = Returned points /\
    Bounds out = Center_rect points (Bounds full).
Proof.
  unfold Center. destruct (PointsOnImage l cropped) as [points | |]; cbn [obind];
    intros H; try discriminate.
  injection H as <-. exists points. split; reflexivity.
Qed.

Lemma too_small_false (d : Detection) :
  too_small d = false <-> 45 <= Dx (Box d) /\ 45 <= Dy (Box d).
Proof.
  unfold too_small.
  destruct (Z.ltb_spec (Dx (Box d)) 45), (Z.ltb_spec (Dy (Box d)) 45); cbn [orb];
    split; intros; try discriminate; try lia; reflexivity.
Qed.

Lemma processed_origin {W : Type} (e : Extractor W) (img : Image)
    (detections : list Detection) (w w' : W)
    (images : list Image) (descrs : list Descriptors) :
  processed e img detections w images descrs w' ->
  Forall2 (fun d cropped2 =>
             exists landmarks : Landmarks,
               Center landmarks (crop img d) img = Returned cropped2)
          (List.filter (fun d => negb (too_small d)) detections) images.
Proof.
  induction 1 as [w | d rest w w' images descrs Hsmall Hp IH
                  | d rest w w1 w2 w' l c2 de images descrs Hsmall HL HC HD Hp IH];
    cbn [List.filter].
  - constructor.
  - rewrite Hsmall. exact IH.
  - rewrite Hsmall. cbn [negb]. constructor; eauto.
Qed.

Lemma threshold_Extract_value :
  threshold_Extract = S754_finite false 10066330 (-24).
Proof. vm_compute. reflexivity. Qed.

Lemma threshold_ExtractLandmarks_value :
  threshold_ExtractLandmarks = S754_finite false 13421773 (-25).
Proof. vm_compute. reflexivity. Qed.

(** C7: when no detection passes the score threshold, [Extract] returns
    empty lists and no error, whereas [ExtractLandmarks] returns the error
    "no face detected". *)
Theorem no_detection_above_threshold {W : Type} (e : Extractor W) (img : Image)
    (w w0 : W) (allDetections : list Detection) :
  Detector e img w = ((allDetections, None), w0) ->
  (Above allDetections threshold_Extract = [] ->
   Extract e img w = Returned (([], [], None), w0)) /\
  (Above allDetections threshold_ExtractLandmarks = [] ->
   ExtractLandmarks e img w = Returned (([], [], Some (New "no face detected")), w0)).
Proof.
  intros HD. unfold Extract, ExtractLandmarks. rewrite HD. split; intros ->; reflexivity.
Qed.

Lemma no_detection_above_threshold_witness :
  Extract ex_faint_extractor ex_full tt = Returned (([], [], None), tt) /\
  ExtractLandmarks ex_faint_extractor ex_full tt
  = Returned (([], [], Some (New "no face detected")), tt).
Proof.
  destruct (no_detection_above_threshold ex_faint_extractor ex_full tt tt
              [ex_faint_detection] eq_refl) as [H1 H2].
  split; [apply H1 | apply H2]; vm_compute; reflexivity.
Defined.




Lemma processed_faces {W : Type} (e : Extractor W) (img : Image)
    (detections : list Detection) (w w' : W)
    (images : list Image) (descrs : list Descriptors) :
  processed e img detections w images descrs w' ->
  Forall (fun cropped2 =>
            exists (d : Detection) (landmarks : Landmarks) (w1 w2 : W),
              In d detections /\ too_small d = false /\
              Landmark e (crop img d) w1 = ((Some landmarks, None), w2) /\
              Center landmarks (crop img d) img = Returned cropped2)
         images.
Proof.
  induction 1 as [w | d rest w w' images descrs Hsmall Hp IH
                  | d rest w w1 w2 w' l c2 de images descrs Hsmall HL HC HD Hp IH].
  - constructor.
  - eapply Forall_impl; [exact IH |]. cbn beta.
    intros im (d' & l' & u1 & u2 & Hin & Hbig & HL & HC).
    exists d', l', u1, u2. cbn [In]. auto.
  - constructor.
    + exists d, l, w, w1. cbn [In]. auto.
    + eapply Forall_impl; [exact IH |]. cbn beta.
      intros im (d' & l' & u1 & u2 & Hin & Hbig & HL' & HC').
      exists d', l', u1, u2. cbn [In]. auto.
Qed.

(** C3, amended: every crop returned by [Extract] comes from a detection
    whose box is at least 45 pixels wide and 45 pixels high; the crop
    itself is the square [Center] cuts for the landmarks that [Landmark]
    answered for that detection.  Its side is the larger dimension of the
    box the loop of [Center] keeps, which is the bounding box of the
    landmark points as soon as one of them lies within the image, and may
    be smaller than 45. *)
Theorem Extract_crops_come_from_large_boxes {W : Type} (e : Extractor W) (img : Image)
    (w w' : W) (images : list Image) (descrs : list Descriptors) :
  Extract e img w = Returned ((images, descrs, None), w') ->
  exists (allDetections : list Detection) (w0 : W),
    Detector e img w = ((allDetections, None), w0) /\
    Forall (fun cropped2 =>
              exists (d : Detection) (landmarks : Landmarks) (points : list Point)
                     (w1 w2 : W),
                In d allDetections /\
                45 <= Dx (Box d) /\ 45 <= Dy (Box d) /\
                Landmark e (crop img d) w1 = ((Some landmarks, None), w2) /\
                PointsOnImage landmarks (crop img d) = Returned points /\
                Bounds cropped2 = Center_rect points (Bounds img) /\
                Dx (Bounds cropped2)
                = Z.max (Dx (Center_box points (Bounds img)))
                        (Dy (Center_box points (Bounds img))) /\
                Dy (Bounds cropped2) = Dx (Bounds cropped2) /\
                forall (p : Point) (ps : list Point),
                  points = p :: ps -> Exists (within (Bounds img)) points ->
                  Dx (Bounds cropped2)
                  = Z.max (Dx (bounding_box p ps)) (Dy (bounding_box p ps)))
           images.
Proof.
  unfold Extract.
  destruct (Detector e img w) as [[allDetections [err |]] w0]; [discriminate |].
  intros H. exists allDetections, w0. split; [reflexivity |].
  apply Extract_loop_processed in H. destruct H as (images1 & descrs1 & Hp & -> & ->).
  cbn [app]. apply processed_faces in Hp.
  eapply Forall_impl; [exact Hp |]. cbn beta.
  intros im (d & l & w1 & w2 & Hin & Hbig & HL & HC).
  apply Center_Bounds in HC. destruct HC as (points & HP & HB).
  apply too_small_false in Hbig. destruct Hbig as [Hx Hy].
  exists d, l, points, w1, w2.
  rewrite Above_filter in Hin. apply filter_In in Hin. destruct Hin as [Hin _].
  rewrite HB. unfold Center_rect.
  rewrite insideOf_Dx, insideOf_Dy, square_Dx, square_Dy.
  split; [exact Hin |]. split; [exact Hx |]. split; [exact Hy |].
  split; [exact HL |]. split; [exact HP |]. split; [reflexivity |].
  split; [reflexivity |]. split; [reflexivity |].
  intros p ps -> Hex. now rewrite (Center_box_bounding_box p ps (Bounds img) Hex).
Qed.

Lemma Extract_crops_come_from_large_boxes_witness :
  exists (allDetections : list Detection) (w0 : unit),
    Detector ex_extractor ex_full tt = ((allDetections, None), w0) /\
    Forall (fun cropped2 =>
              exists (d : Detection) (landmarks : Landmarks) (points : list Point)
                     (w1 w2 : unit),
                In d allDetections /\
                45 <= Dx (Box d) /\ 45 <= Dy (Box d) /\
                Landmark ex_extractor (crop ex_full d) w1 = ((Some landmarks, None), w2) /\
                PointsOnImage landmarks (crop ex_full d) = Returned points /\
                Bounds cropped2 = Center_rect points (Bounds ex_full) /\
                Dx (Bounds cropped2)
                = Z.max (Dx (Center_box points (Bounds ex_full)))
                        (Dy (Center_box points (Bounds ex_full))) /\
                Dy (Bounds cropped2) = Dx (Bounds cropped2) /\
                forall (p : Point) (ps : list Point),
                  points = p :: ps -> Exists (within (Bounds ex_full)) points ->
                  Dx (Bounds cropped2)
                  = Z.max (Dx (bounding_box p ps)) (Dy (bounding_box p ps)))
           (match Center ex_landmarks (crop ex_full ex_detection) ex_full with
            | Returned cropped2 => [cropped2]
            | _ => []
            end).
Proof.
  destruct (Center ex_landmarks (crop ex_full ex_detection) ex_full)
    as [cropped2 | |] eqn:HC; [| discriminate HC | discriminate HC].
  apply (Extract_crops_come_from_large_boxes ex_extractor ex_full tt tt
           [cropped2] [ex_descriptor]).
  unfold Extract. cbn [ex_extractor Detector].
  replace (Above [ex_detection] threshold_Extract) with [ex_detection]
    by (vm_compute; reflexivity).
  cbn [Extract_loop].
  replace (too_small ex_detection) with false by (vm_compute; reflexivity).
  cbn [ex_extractor Landmark Descriptor]. rewrite HC. reflexivity.
Defined.

(** C3 as stated fails: a confident detection over a 100 by 100 box whose
    landmarks span a quarter of the crop yields a returned crop of 25 by
    25 pixels. *)
Lemma Extract_returns_crop_below_45 :
  exists (cropped2 : Image) (descrs : list Descriptors),
    Extract ex_extractor ex_full tt = Returned (([cropped2], descrs, None), tt) /\
    Dx (Bounds cropped2) = 25 /\ Dy (Bounds cropped2) = 25 /\
    ~ (45 <= Dx (Bounds cropped2) /\ 45 <= Dy (Bounds cropped2)).
Proof.
  destruct (Center ex_landmarks (crop ex_full ex_detection) ex_full)
    as [cropped2 | |] eqn:HC; [| discriminate HC | discriminate HC].
  exists cropped2, [ex_descriptor].
  assert (HB : Bounds cropped2 = mkRect (mkPoint 25 25) (mkPoint 50 50)).
  { destruct (Center_Bounds _ _ _ _ HC) as (points & HP & ->).
    vm_compute in HP. injection HP as <-. vm_compute. reflexivity. }
  split; [| rewrite HB; vm_compute; repeat split; try reflexivity; intros [H _]; now apply H].
  unfold Extract. cbn [ex_extractor Detector].
  replace (Above [ex_detection] threshold_Extract) with [ex_detection]
    by (vm_compute; reflexivity).
  cbn [Extract_loop].
  replace (too_small ex_detection) with false by (vm_compute; reflexivity).
  cbn [ex_extractor Landmark Descriptor]. rewrite HC. reflexivity.
Qed.

Lemma too_small_45 (d : Detection) :
  negb (too_small d) = (45 <=? Dx (Box d)) && (45 <=? Dy (Box d)).
Proof.
  unfold too_small.
  destruct (Z.ltb_spec (Dx (Box d)) 45), (Z.leb_spec 45 (Dx (Box d))),
    (Z.ltb_spec (Dy (Box d)) 45), (Z.leb_spec 45 (Dy (Box d)));
    cbn [orb andb negb]; try reflexivity; lia.
Qed.

Lemma filter_45 (detections : list Detection) :
  List.filter (fun d => negb (too_small d)) detections
  = List.filter (fun d => (45 <=? Dx (Box d)) && (45 <=? Dy (Box d))) detections.
Proof.
  induction detections as [| d rest IH]; [reflexivity |].
  cbn [List.filter]. now rewrite IH, too_small_45.
Qed.

Lemma ExtractLandmarks_loop_skips {W : Type} (e : Extractor W) (img : Image)
    (detections : list Detection) :
  forall (ret : list (list Point)) (crops : list Image) (w : W),
    ExtractLandmarks_loop e img detections ret crops w
    = ExtractLandmarks_loop e img
        (List.filter (fun d => negb (too_small d)) detections) ret crops w.
Proof.
  induction detections as [| d rest IH]; intros ret crops w; [reflexivity |].
  cbn [List.filter]. destruct (too_small d) eqn:Hsmall; cbn [negb].
  - cbn [ExtractLandmarks_loop]. rewrite Hsmall. apply IH.
  - cbn [ExtractLandmarks_loop]. rewrite Hsmall.
    destruct (Landmark e (crop img d) w) as [[lm [err |]] w1]; [reflexivity |].
    destruct lm as [l |]; [| reflexivity].
    destruct (PointsOnImage l (crop img d)) as [pts | |]; cbn [obind];
      try reflexivity.
    apply IH.
Qed.

Lemma ltb_nan_left (x t : float32) : F32.is_nan x = true -> F32.ltb x t = false.
Proof. destruct x; try discriminate. intros _. now destruct t. Qed.

(** C8, amended: [Extract] works on exactly the detections whose score
    is not below 0.6 and [ExtractLandmarks] on those whose score is not
    below 0.4, in the order the detector gave them: for a score that is a
    number this is a score of at least the threshold, and a score that is
    NaN passes too.  Of these, a detection whose box is less than 45
    pixels wide or high is passed over without any call to [Landmark] or
    [Descriptor]; and the results of a successful call follow the order
    of the detections. *)
Theorem Extract_filters_and_keeps_order {W : Type} (e : Extractor W) (img : Image)
    (w w0 : W) (allDetections : list Detection) :
  Detector e img w = ((allDetections, None), w0) ->
  let survivors :=
    List.filter (fun d => negb (F32.ltb (Score d) threshold_Extract)) allDetections in
  let survivorsL :=
    List.filter (fun d => negb (F32.ltb (Score d) threshold_ExtractLandmarks))
      allDetections in
  threshold_Extract = S754_finite false 10066330 (-24) /\
  threshold_ExtractLandmarks = S754_finite false 13421773 (-25) /\
  (forall (t : float32) (d : Detection),
     F32.is_nan t = false ->
     negb (F32.ltb (Score d) t)
     = if F32.is_nan (Score d) then true else F32.leb t (Score d)) /\
  Extract e img w
  = Extract_loop e img
      (List.filter (fun d => (45 <=? Dx (Box d)) && (45 <=? Dy (Box d))) survivors)
      [] [] w0 /\
  ExtractLandmarks e img w
  = (if len survivorsL =? 0
     then Returned (([], [], Some (New "no face detected")), w0)
     else ExtractLandmarks_loop e img
            (List.filter (fun d => (45 <=? Dx (Box d)) && (45 <=? Dy (Box d)))
               survivorsL)
            [] [] w0) /\
  forall (images : list Image) (descrs : list Descriptors) (w' : W),
    Extract e img w = Returned ((images, descrs, None), w') ->
    processed e img survivors w0 images descrs w' /\
    Forall2 (fun d cropped2 =>
               exists landmarks : Landmarks,
                 Center landmarks (crop img d) img = Returned cropped2)
            (List.filter (fun d => (45 <=? Dx (Box d)) && (45 <=? Dy (Box d)))
               survivors)
            images.
Proof.
  intros HD survivors survivorsL.
  assert (H6 : Above allDetections threshold_Extract = survivors)
    by apply Above_filter.
  assert (H4 : Above allDetections threshold_ExtractLandmarks = survivorsL)
    by apply Above_filter.
  split; [exact threshold_Extract_value |].
  split; [exact threshold_ExtractLandmarks_value |].
  split; [| split; [| split]].
  - intros t d Ht. destruct (F32.is_nan (Score d)) eqn:Hn.
    + now rewrite (ltb_nan_left _ t Hn).
    + apply not_ltb_leb; assumption.
  - unfold Extract. rewrite HD, H6, <- filter_45. apply Extract_loop_skips.
  - unfold ExtractLandmarks. rewrite HD, H4, <- filter_45.
    destruct (len survivorsL =? 0); [reflexivity |].
    apply ExtractLandmarks_loop_skips.
  - intros images descrs w'. unfold Extract. rewrite HD, H6. intros H.
    apply Extract_loop_processed in H. destruct H as (images1 & descrs1 & Hp & -> & ->).
    cbn [app]. split; [exact Hp |]. rewrite <- filter_45.
    now apply processed_origin in Hp.
Qed.

Lemma Extract_filters_and_keeps_order_witness :
  Extract ex_mixed_extractor ex_full tt
  = Extract_loop ex_mixed_extractor ex_full [ex_detection] [] [] tt.
Proof.
  pose proof (Extract_filters_and_keeps_order ex_mixed_extractor ex_full tt tt
                [ex_small_detection; ex_detection; ex_faint_detection] eq_refl) as H.
  cbv zeta in H. destruct H as (_ & _ & _ & HE & _).
  rewrite HE. f_equal.
Defined.

(** C8 as stated fails: a detection whose score is NaN does not have a
    score of at least 0.6, and [Extract] works on it all the same. *)
Lemma Extract_processes_nan_score :
  F32.leb threshold_Extract (Score ex_nan_detection) = false /\
  exists cropped2 : Image,
    Extract ex_nan_extractor ex_full tt
    = Returned (([cropped2], [ex_descriptor], None), tt).
Proof.
  split; [reflexivity |].
  destruct (Center ex_landmarks (crop ex_full ex_nan_detection) ex_full)
    as [cropped2 | |] eqn:HC; [| discriminate HC | discriminate HC].
  exists cropped2.
  unfold Extract. cbn [ex_nan_extractor Detector].
  replace (Above [ex_nan_detection] threshold_Extract) with [ex_nan_detection]
    by (vm_compute; reflexivity).
  cbn [Extract_loop].
  replace (too_small ex_nan_detection) with false by (vm_compute; reflexivity).
  cbn [ex_nan_extractor Landmark Descriptor]. rewrite HC. reflexivity.
Qed.

(** ** Witnesses and counterexamples for the geometry and the distance *)

Lemma Center_rect_square_contained_iff_witness :
  Dx (Center_rect ex_points (Bounds ex_full))
  = Dy (Center_rect ex_points (Bounds ex_full)) /\
  (contained (Center_rect ex_points (Bounds ex_full)) (Bounds ex_full) <->
   Z.max (Dx (Center_box ex_points (Bounds ex_full)))
         (Dy (Center_box ex_points (Bounds ex_full)))
   <= Z.min (Dx (Bounds ex_full)) (Dy (Bounds ex_full))).
Proof.
  apply (Center_rect_square_contained_iff ex_points (Bounds ex_full)).
  - unfold small_rect, small. cbn. lia.
  - discriminate.
  - repeat constructor; cbn; lia.
Defined.

(** C1 as stated fails: in a 100 by 10 image, landmarks at the corner and
    at the middle give points (0,0) and (50,5); their box lies within the
    image, and [Center] crops to the square from (0,-40) to (50,10),
    which leaves the image. *)
Lemma Center_rect_leaves_wide_image :
  PointsOnImage ex_corner_landmarks ex_wide = Returned [mkPoint 0 0; mkPoint 50 5] /\
  Forall (within (Bounds ex_wide)) [mkPoint 0 0; mkPoint 50 5] /\
  contained (Center_box [mkPoint 0 0; mkPoint 50 5] (Bounds ex_wide)) (Bounds ex_wide) /\
  Center_rect [mkPoint 0 0; mkPoint 50 5] (Bounds ex_wide)
  = mkRect (mkPoint 0 (-40)) (mkPoint 50 10) /\
  ~ contained (Center_rect [mkPoint 0 0; mkPoint 50 5] (Bounds ex_wide)) (Bounds ex_wide).
Proof.
  split; [vm_compute; reflexivity |].
  split; [repeat constructor; cbn; lia |].
  split; [vm_compute; repeat split; discriminate |].
  split; [vm_compute; reflexivity |].
  vm_compute. intros (_ & _ & H & _). now apply H.
Qed.

Lemma PointsOnImage_pairs_up_witness :
  exists points : list Point,
    PointsOnImage ex_landmarks ex_full = Returned points /\
    length points = (length (Coords ex_landmarks) / 2)%nat /\
    forall (k : nat) (p : Point), points !! k = Some p ->
      exists cx cy : float32,
        Coords ex_landmarks !! (2 * k)%nat = Some cx /\
        Coords ex_landmarks !! (2 * k + 1)%nat = Some cy /\
        p = mkPoint
              (Int.add (X (Min (Bounds ex_full)))
                 (F32.to_int (F32.mul (F32.of_int (Dx (Bounds ex_full))) cx)))
              (Int.add (Y (Min (Bounds ex_full)))
                 (F32.to_int (F32.mul (F32.of_int (Dy (Bounds ex_full))) cy))).
Proof.
  apply (PointsOnImage_pairs_up ex_landmarks ex_full).
  unfold slice_ok. vm_compute. discriminate.
Defined.

Lemma DistanceTo_fails_iff_lengths_differ_witness :
  DistanceTo [F32.zero] ex_descriptor
  = Returned (F32.zero,
              Some (New "cannot calculate distance between descriptors of dimensions 1 and 3")).
Proof.
  apply (DistanceTo_fails_iff_lengths_differ [F32.zero] ex_descriptor).
  - unfold slice_ok. vm_compute. discriminate.
  - cbn. lia.
Defined.

Lemma DistanceTo_euclidean_witness :
  DistanceTo [F32.zero; F32.zero; F32.zero] ex_descriptor
  = Returned (euclidean [F32.zero; F32.zero; F32.zero] ex_descriptor, None).
Proof.
  apply (DistanceTo_euclidean [F32.zero; F32.zero; F32.zero] ex_descriptor).
  - unfold slice_ok. vm_compute. discriminate.
  - reflexivity.
Defined.

(** C5 as stated fails: the distance of the one-entry descriptor
    [+infinity] to itself is NaN, which is not equal to 0 (nor to
    itself). *)
Lemma DistanceTo_self_not_zero :
  length [S754_infinity false] = length [S754_infinity false] /\
  DistanceTo [S754_infinity false] [S754_infinity false] = Returned (S754_nan, None) /\
  F32.eqb S754_nan F32.zero = false /\
  F32.eqb S754_nan S754_nan = false.
Proof. repeat split. Qed.

(** ** The cache file name *)

(** The digest agrees with the test vectors of the standard. *)
Example sha1_abc :
  hex (sha1.Sum (bytes_of_string "abc")) = "a9993e364706816aba3e25717850c26c9cd0d89d"%string.
Proof. vm_compute. reflexivity. Qed.

Example sha1_two_blocks :
  hex (sha1.Sum (bytes_of_string
                   "abcdbcdecdefdefgefghfghighijhijkijkljklmklmnlmnomnopnopq"))
  = "84983e441c3bd26ebaae4aa1f95129e5e54670f1"%string.
Proof. vm_compute. reflexivity. Qed.

Example cacheName_cat :
  cacheName "/photos/.inception" "/photos/cat.jpg"
  = "/photos/.inception/d8f21a770c9ac72284bb6f62f91b64b04f07e146.json"%string.
Proof. vm_compute. reflexivity. Qed.

Lemma last_slash_app (a b : string) :
  last_slash (a +:+ b)
  = match last_slash b with
    | Some n => Some (String.length a + n)%nat
    | None => last_slash a
    end.
Proof.
  induction a as [| c a IH].
  - change ("" +:+ b) with b. now destruct (last_slash b).
  - change (String c a +:+ b) with (String c (a +:+ b)).
    cbn [last_slash String.length]. rewrite IH.
    destruct (last_slash b) as [n |]; [reflexivity |].
    now destruct (last_slash a).
Qed.

Lemma string_length_app (a b : string) :
  String.length (a +:+ b) = (String.length a + String.length b)%nat.
Proof.
  induction a as [| c a IH]; [reflexivity |].
  change (String c a +:+ b) with (String c (a +:+ b)).
  cbn [String.length]. now rewrite IH.
Qed.

Lemma substring_prefix (a b : string) :
  substring 0 (String.length a) (a +:+ b) = a.
Proof.
  induction a as [| c a IH].
  - change ("" +:+ b) with b. now destruct b.
  - change (String c a +:+ b) with (String c (a +:+ b)).
    cbn [String.length substring]. now rewrite IH.
Qed.

Lemma hex_digit_not_slash (n : Z) : 0 <= n < 16 -> hex_digit n <> "/"%char.
Proof.
  intros H E.
  assert (A : forallb (fun k => negb (Ascii.eqb (hex_digit (Z.of_nat k)) "/"))
                      (seq 0 16) = true) by (vm_compute; reflexivity).
  rewrite List.forallb_forall in A. specialize (A (Z.to_nat n)).
  rewrite Z2Nat.id, E in A by lia.
  discriminate A. apply in_seq. lia.
Qed.

Lemma hex_no_slash (bytes : list Z) (tail : string) :
  Forall (fun b => 0 <= b < 256) bytes ->
  last_slash tail = None -> last_slash (hex bytes +:+ tail) = None.
Proof.
  intros Hb Ht. induction Hb as [| b rest Hb Hrest IH]; [exact Ht |].
  cbn [hex].
  change (String ?c1 (String ?c2 ?r) +:+ tail) with (String c1 (String c2 (r +:+ tail))).
  cbn [last_slash]. rewrite IH.
  assert (H1 : hex_digit (b / 16) <> "/"%char)
    by (apply hex_digit_not_slash; Z.to_euclidean_division_equations; lia).
  assert (H2 : hex_digit (b mod 16) <> "/"%char)
    by (apply hex_digit_not_slash; Z.to_euclidean_division_equations; lia).
  apply Ascii.eqb_neq in H1, H2. now rewrite H1, H2.
Qed.

Lemma be_bytes_range (n : nat) (z : Z) : Forall (fun b => 0 <= b < 256) (sha1.be_bytes n z).
Proof.
  unfold sha1.be_bytes. apply List.Forall_forall. intros b Hb.
  apply in_map_iff in Hb. destruct Hb as (i & <- & _).
  apply Z.mod_pos_bound. lia.
Qed.

Lemma Sum_range (msg : list Z) : Forall (fun b => 0 <= b < 256) (sha1.Sum msg).
Proof.
  unfold sha1.Sum.
  destruct (fold_left sha1.block _ sha1.init) as [[[[h0 h1] h2] h3] h4].
  cbn [flat_map]. rewrite !Forall_app. repeat split; try apply be_bytes_range.
  constructor.
Qed.

(** The cache file of any key lies directly in the cache directory. *)
Lemma dirname_cacheName (cacheDir file : string) :
  cacheDir <> ""%string -> dirname (cacheName cacheDir file) = cacheDir.
Proof.
  intros Hne. unfold dirname, cacheName.
  rewrite last_slash_app.
  assert (E : last_slash ("/" +:+ hex (sha1.Sum (bytes_of_string file)) +:+ ".json")
              = Some O).
  { change ("/" +:+ ?r) with (String "/" r). cbn [last_slash].
    rewrite hex_no_slash; [reflexivity | apply Sum_range | reflexivity]. }
  rewrite E, Nat.add_0_r.
  destruct cacheDir as [| c rest]; [congruence |].
  change (S (String.length rest)) with (String.length (String c rest)).
  apply substring_prefix.
Qed.

Lemma cacheName_longer (cacheDir file : string) : cacheName cacheDir file <> cacheDir.
Proof.
  unfold cacheName. intros H.
  apply (f_equal String.length) in H. rewrite !string_length_app in H.
  cbn [String.length] in H. lia.
Qed.

(** ** The local cache *)

Section CacheFacts.

Variable json_Marshal : list string -> string * option error.
Variable json_Unmarshal : string -> list string * option error.

Context {C : Type}.

Lemma WriteFile_ok (path data : string) (f : FS) :
  dirname path ∈ dirs f -> path ∉ dirs f ->
  WriteFile path data f = (None, mkFS (<[path := data]> (files f)) (dirs f)).
Proof.
  intros H1 H2. unfold WriteFile.
  destruct (decide (dirname path ∈ dirs f /\ path ∉ dirs f)) as [_ | N];
    [reflexivity | tauto].
Qed.

Lemma WriteFile_no_directory (path data : string) (f : FS) :
  dirname path ∉ dirs f ->
  WriteFile path data f
  = (Some (New ("open " +:+ path +:+ ": no such file or directory")), f).
Proof.
  intros H. unfold WriteFile.
  destruct (decide (dirname path ∈ dirs f /\ path ∉ dirs f)) as [[Y _] | _];
    [contradiction | reflexivity].
Qed.

(** When the cache file can be written, [saveCache] leaves the encoded
    predictions in it. *)
Lemma saveCache_persists (l : LocalCache) (file : string) (preds : list string)
    (b : string) (f : FS) :
  json_Marshal preds = (b, None) -> CacheDir l <> ""%string ->
  cache_writable l file f ->
  files (saveCache json_Marshal (CacheDir l) (cacheName (CacheDir l) file) preds f)
    !! cacheName (CacheDir l) file = Some b.
Proof.
  intros HM Hne [Hfile Hdir]. unfold saveCache. rewrite HM.
  pose proof (dirname_cacheName (CacheDir l) file Hne) as Hd.
  destruct Hdir as [Hin | (Hnot & Hfree & Hparent)].
  - rewrite WriteFile_ok by (rewrite ?Hd; assumption).
    cbn [files]. apply lookup_insert_eq.
  - rewrite WriteFile_no_directory by (rewrite Hd; assumption).
    unfold Mkdir.
    destruct (decide (CacheDir l ∈ dirs f \/ is_Some (files f !! CacheDir l)))
      as [[Y | Y] | _].
    + contradiction.
    + rewrite Hfree in Y. now destruct Y.
    + destruct (decide (dirname (CacheDir l) ∈ dirs f)) as [_ | N]; [| contradiction].
      rewrite WriteFile_ok.
      * cbn [files]. apply lookup_insert_eq.
      * cbn [dirs]. rewrite Hd. apply elem_of_union_l, elem_of_singleton. reflexivity.
      * cbn [dirs]. pose proof (cacheName_longer (CacheDir l) file) as Hlong.
        intros [Heq%elem_of_singleton | Hold]%elem_of_union; [congruence | contradiction].
Qed.

Lemma readCache_stored (cacheFile b : string) (preds : list string) (f : FS) :
  files f !! cacheFile = Some b -> json_Unmarshal b = (preds, None) ->
  readCache json_Unmarshal cacheFile f = (preds, true).
Proof.
  intros Hf HU. unfold readCache, ReadFile. now rewrite Hf, HU.
Qed.

(** C4, amended: on a hit the stored predictions are returned and the
    function is not invoked; on a miss it is invoked once: if it fails,
    the error is returned and the file system is left as it was; if it
    succeeds, its result is returned after [saveCache] has tried to store
    it, and when the cache file can be written the result is in the file
    named after the key's hash; if moreover the stored bytes decode back
    to the result, a second call with the same key returns the same
    result without invoking anything. *)
Theorem Inception_memoises (l : LocalCache) (file : string) (inception : inception_fn)
    (w : World C) :
  (forall preds : list string,
     readCache json_Unmarshal (cacheName (CacheDir l) file) (fs w) = (preds, true) ->
     Inception json_Marshal json_Unmarshal l file inception w = ((preds, None), w)) /\
  (forall (stale preds : list string) (err : error) (c' : C),
     readCache json_Unmarshal (cacheName (CacheDir l) file) (fs w) = (stale, false) ->
     inception (cst w) = ((preds, Some err), c') ->
     Inception json_Marshal json_Unmarshal l file inception w
     = (([], Some err), mkWorld (fs w) c' (S (invocations w)))) /\
  (forall (stale preds : list string) (c' : C),
     readCache json_Unmarshal (cacheName (CacheDir l) file) (fs w) = (stale, false) ->
     inception (cst w) = ((preds, None), c') ->
     let w1 :=
       mkWorld (saveCache json_Marshal (CacheDir l) (cacheName (CacheDir l) file)
                  preds (fs w))
               c' (S (invocations w)) in
     Inception json_Marshal json_Unmarshal l file inception w = ((preds, None), w1) /\
     forall b : string,
       json_Marshal preds = (b, None) -> CacheDir l <> ""%string ->
       cache_writable l file (fs w) ->
       files (fs w1) !! cacheName (CacheDir l) file = Some b /\
       (json_Unmarshal b = (preds, None) ->
        forall inception' : inception_fn,
          Inception json_Marshal json_Unmarshal l file inception' w1
          = ((preds, None), w1))).
Proof.
  split; [| split].
  - intros preds HR. unfold Inception. now rewrite HR.
  - intros stale preds err c' HR HI. unfold Inception, invoke. now rewrite HR, HI.
  - intros stale preds c' HR HI w1. split.
    + unfold Inception, invoke. now rewrite HR, HI.
    + intros b HM Hne Hw.
      pose proof (saveCache_persists l file preds b (fs w) HM Hne Hw) as Hp.
      split; [exact Hp |].
      intros HU inception'. unfold Inception.
      now rewrite (readCache_stored _ b preds (fs w1) Hp HU).
Qed.

End CacheFacts.

Lemma Inception_memoises_witness :
  Inception ex_Marshal ex_Unmarshal ex_cache "/photos/cat.jpg" ex_inception
    (mkWorld ex_fs_ready 0%nat 0%nat)
  = ((["cat"; "tabby"]%string, None),
     mkWorld (saveCache ex_Marshal (CacheDir ex_cache)
                (cacheName (CacheDir ex_cache) "/photos/cat.jpg")
                ["cat"; "tabby"]%string ex_fs_ready) 1%nat 1%nat) /\
  Inception ex_Marshal ex_Unmarshal ex_cache "/photos/cat.jpg" ex_inception
    (mkWorld (saveCache ex_Marshal (CacheDir ex_cache)
                (cacheName (CacheDir ex_cache) "/photos/cat.jpg")
                ["cat"; "tabby"]%string ex_fs_ready) 1%nat 1%nat)
  = ((["cat"; "tabby"]%string, None),
     mkWorld (saveCache ex_Marshal (CacheDir ex_cache)
                (cacheName (CacheDir ex_cache) "/photos/cat.jpg")
                ["cat"; "tabby"]%string ex_fs_ready) 1%nat 1%nat).
Proof.
  destruct (Inception_memoises ex_Marshal ex_Unmarshal ex_cache "/photos/cat.jpg"
              ex_inception (mkWorld ex_fs_ready 0%nat 0%nat)) as (_ & _ & Hmiss).
  destruct (Hmiss [] ["cat"; "tabby"]%string 1%nat) as [Hfirst Hnext];
    [vm_compute; reflexivity | reflexivity |].
  split; [exact Hfirst |].
  destruct (Hnext (fst (ex_Marshal ["cat"; "tabby"]%string))) as [_ Hsecond].
  - reflexivity.
  - discriminate.
  - split.
    + vm_compute. discriminate.
    + right. split; [| split].
      * vm_compute. discriminate.
      * vm_compute. reflexivity.
      * vm_compute. reflexivity.
  - apply Hsecond. vm_compute. reflexivity.
Defined.

(** C4 as stated fails: with a cache directory whose parent does not
    exist the result is returned but nothing is stored, and a second call
    with the same key invokes the function again. *)
Lemma Inception_computes_twice_when_unwritable :
  exists w1 w2 : World nat,
    Inception ex_Marshal ex_Unmarshal ex_lost_cache "/missing/cat.jpg" ex_inception
      (mkWorld ex_fs_missing 0%nat 0%nat)
    = ((["cat"; "tabby"]%string, None), w1) /\
    files (fs w1) !! cacheName (CacheDir ex_lost_cache) "/missing/cat.jpg" = None /\
    Inception ex_Marshal ex_Unmarshal ex_lost_cache "/missing/cat.jpg" ex_inception w1
    = ((["cat"; "tabby"]%string, None), w2) /\
    invocations w1 = 1%nat /\ invocations w2 = 2%nat.
Proof.
  eexists. eexists.
  split; [vm_compute; reflexivity |].
  split; [vm_compute; reflexivity |].
  split; [vm_compute; reflexivity |].
  split; reflexivity.
Qed.

(** * Further properties *)

(** ** More on [square] and [insideOf] *)

(** X1: squaring a rectangle twice is squaring it once, in wrap-around
    arithmetic and whatever the rectangle. *)
Theorem square_idempotent (rect : Rectangle) : square (square rect) = square rect.
Proof.
  pose proof (square_Dx rect) as Hx. pose proof (square_Dy rect) as Hy.
  unfold Dx, Dy in Hx, Hy.
  unfold square at 1.
  rewrite Hx, Hy. cbv zeta.
  now rewrite Z.gtb_ltb, Z.ltb_irrefl.
Qed.

(** X2: away from overflow, [square] only grows a well-formed rectangle:
    the result contains it, the longer side is untouched, and the
    shorter side is padded on both ends by amounts that differ by at
    most one, the extra pixel going to the maximum edge. *)
Theorem square_grows_evenly (rect : Rectangle) :
  small_rect rect -> well_formed rect ->
  contained rect (square rect) /\
  well_formed (square rect) /\
  (X (Min rect) - X (Min (square rect))
   <= X (Max (square rect)) - X (Max rect)
   <= X (Min rect) - X (Min (square rect)) + 1) /\
  (Y (Min rect) - Y (Min (square rect))
   <= Y (Max (square rect)) - Y (Max rect)
   <= Y (Min rect) - Y (Min (square rect)) + 1) /\
  (Dx rect <= Dy rect -> Y (Min (square rect)) = Y (Min rect) /\
                         Y (Max (square rect)) = Y (Max rect)) /\
  (Dy rect <= Dx rect -> X (Min (square rect)) = X (Min rect) /\
                         X (Max (square rect)) = X (Max rect)).
Proof.
  intros Hs Hw.
  destruct (square_pads rect Hs Hw)
    as (l & r & t & b & -> & Hl & Hr & Ht & Hb & Hlr & Htb & Ew & Eh).
  destruct rect as [[x0 y0] [x1 y1]].
  unfold well_formed, contained in *. cbn [X Y Min Max] in *.
  rewrite Ew, Eh in *. lia.
Qed.

Lemma square_grows_evenly_witness :
  contained (Center_box ex_points (Bounds ex_full))
            (square (Center_box ex_points (Bounds ex_full))).
Proof.
  apply (square_grows_evenly (Center_box ex_points (Bounds ex_full))).
  - unfold small_rect, small. vm_compute. repeat split; discriminate.
  - vm_compute. split; discriminate.
Defined.

(** X3: [insideOf] leaves alone a rectangle that already lies within the
    bounds, whatever the coordinates. *)
Theorem insideOf_fixes_contained (rect bounds : Rectangle) :
  contained rect bounds -> insideOf rect bounds = rect.
Proof.
  destruct rect as [[x0 y0] [x1 y1]], bounds as [[bx0 by0] [bx1 by1]].
  unfold contained, insideOf; cbn [X Y Min Max]. intros (H1 & H2 & H3 & H4).
  assert (E1 : (bx0 >? x0) = false) by (rewrite Z.gtb_ltb; apply Z.ltb_ge; lia).
  assert (E2 : (by0 >? y0) = false) by (rewrite Z.gtb_ltb; apply Z.ltb_ge; lia).
  assert (E3 : (x1 >? bx1) = false) by (rewrite Z.gtb_ltb; apply Z.ltb_ge; lia).
  assert (E4 : (y1 >? by1) = false) by (rewrite Z.gtb_ltb; apply Z.ltb_ge; lia).
  rewrite E1. cbn [X Y Min Max]. rewrite E2. cbn [X Y Min Max].
  rewrite E3. cbn [X Y Min Max]. now rewrite E4.
Qed.

Lemma insideOf_fixes_contained_witness :
  insideOf (Center_box ex_points (Bounds ex_full)) (Bounds ex_full)
  = Center_box ex_points (Bounds ex_full).
Proof.
  apply (insideOf_fixes_contained (Center_box ex_points (Bounds ex_full))
           (Bounds ex_full)).
  vm_compute. repeat split; discriminate.
Defined.

(** Replaces an innermost [Int.add] or [Int.sub] by the plain operation
    when [lia] shows the result in range. *)
Ltac unwrap :=
  repeat match goal with
  | |- context [Int.sub ?a ?b] =>
      lazymatch a with
      | context [Int.sub _ _] => fail
      | context [Int.add _ _] => fail
      | _ =>
          lazymatch b with
          | context [Int.sub _ _] => fail
          | context [Int.add _ _] => fail
          | _ => replace (Int.sub a b) with (a - b)
                   by (symmetry; apply wrap_id; int_unfold; lia)
          end
      end
  | |- context [Int.add ?a ?b] =>
      lazymatch a with
      | context [Int.sub _ _] => fail
      | context [Int.add _ _] => fail
      | _ =>
          lazymatch b with
          | context [Int.sub _ _] => fail
          | context [Int.add _ _] => fail
          | _ => replace (Int.add a b) with (a + b)
                   by (symmetry; apply wrap_id; int_unfold; lia)
          end
      end
  end.

(** One axis of [insideOf] in closed form: an interval that fits is moved
    by the least amount that brings it inside; one that is too long ends
    on the upper bound. *)
Lemma clamp_closed_form (bmin bmax lo hi : Z) :
  small bmin -> small bmax -> small lo -> small hi -> bmin <= bmax -> lo <= hi ->
  clamp bmin bmax (lo, hi)
  = if hi - lo <=? bmax - bmin
    then (Z.max bmin (Z.min lo (bmax - (hi - lo))),
          Z.max bmin (Z.min lo (bmax - (hi - lo))) + (hi - lo))
    else (bmax - (hi - lo), bmax).
Proof.
  unfold small, clamp. intros.
  destruct (Z.gtb_spec bmin lo).
  - unwrap.
    destruct (Z.gtb_spec (hi + (bmin - lo)) bmax); unwrap;
      destruct (Z.leb_spec (hi - lo) (bmax - bmin)); f_equal; lia.
  - destruct (Z.gtb_spec hi bmax); unwrap;
      destruct (Z.leb_spec (hi - lo) (bmax - bmin)); f_equal; lia.
Qed.

Lemma clamp_idempotent (bmin bmax lo hi : Z) :
  small bmin -> small bmax -> small lo -> small hi -> bmin <= bmax -> lo <= hi ->
  clamp bmin bmax (clamp bmin bmax (lo, hi)) = clamp bmin bmax (lo, hi).
Proof.
  intros Hbmin Hbmax Hlo Hhi Hb Hl.
  rewrite (clamp_closed_form bmin bmax lo hi) by assumption.
  unfold small in *.
  destruct (Z.leb_spec (hi - lo) (bmax - bmin)) as [Hfit | Hlong].
  - set (lo' := Z.max bmin (Z.min lo (bmax - (hi - lo)))).
    assert (Hlo' : bmin <= lo' /\ lo' + (hi - lo) <= bmax) by (subst lo'; lia).
    unfold clamp.
    destruct (Z.gtb_spec bmin lo'); [lia |].
    destruct (Z.gtb_spec (lo' + (hi - lo)) bmax); [lia | reflexivity].
  - unfold clamp.
    destruct (Z.gtb_spec bmin (bmax - (hi - lo))); [| lia].
    unwrap.
    destruct (Z.gtb_spec (bmax + (bmin - (bmax - (hi - lo)))) bmax); [| lia].
    unwrap. f_equal. lia.
Qed.

(** X4: away from overflow, [insideOf] moves a rectangle by the least
    amount that brings it inside the bounds along each axis; along an
    axis where the rectangle is longer than the bounds, it ends on the
    maximum edge of the bounds and sticks out on the minimum side. *)
Theorem insideOf_moves_least (rect bounds : Rectangle) :
  small_rect rect -> small_rect bounds -> well_formed rect -> well_formed bounds ->
  (Dx rect <= Dx bounds ->
   X (Min (insideOf rect bounds))
   = Z.max (X (Min bounds)) (Z.min (X (Min rect)) (X (Max bounds) - Dx rect))) /\
  (Dx bounds < Dx rect ->
   X (Max (insideOf rect bounds)) = X (Max bounds) /\
   X (Min (insideOf rect bounds)) < X (Min bounds)) /\
  (Dy rect <= Dy bounds ->
   Y (Min (insideOf rect bounds))
   = Z.max (Y (Min bounds)) (Z.min (Y (Min rect)) (Y (Max bounds) - Dy rect))) /\
  (Dy bounds < Dy rect ->
   Y (Max (insideOf rect bounds)) = Y (Max bounds) /\
   Y (Min (insideOf rect bounds)) < Y (Min bounds)).
Proof.
  intros Hr Hb Hwr Hwb. rewrite insideOf_clamp.
  destruct rect as [[x0 y0] [x1 y1]], bounds as [[bx0 by0] [bx1 by1]].
  unfold small_rect, well_formed, Dx, Dy in *. cbn [X Y Min Max] in *.
  destruct Hr as (? & ? & ? & ?), Hb as (? & ? & ? & ?), Hwr, Hwb.
  rewrite (clamp_closed_form bx0 bx1 x0 x1), (clamp_closed_form by0 by1 y0 y1)
    by assumption.
  unfold small in *. unwrap. cbv zeta.
  destruct (Z.leb_spec (x1 - x0) (bx1 - bx0)), (Z.leb_spec (y1 - y0) (by1 - by0));
    cbn [fst snd X Y Min Max]; repeat split; intros; lia.
Qed.

Lemma insideOf_moves_least_witness :
  X (Max (insideOf (mkRect (mkPoint 0 (-22)) (mkPoint 50 28)) (Bounds ex_wide)))
  = X (Max (Bounds ex_wide)) \/
  Y (Max (insideOf (mkRect (mkPoint 0 (-22)) (mkPoint 50 28)) (Bounds ex_wide)))
  = Y (Max (Bounds ex_wide)).
Proof.
  right.
  apply (insideOf_moves_least (mkRect (mkPoint 0 (-22)) (mkPoint 50 28))
           (Bounds ex_wide)).
  - unfold small_rect, small. vm_compute. repeat split; discriminate.
  - unfold small_rect, small. vm_compute. repeat split; discriminate.
  - vm_compute. split; discriminate.
  - vm_compute. split; discriminate.
  - vm_compute. reflexivity.
Defined.

(** X5: away from overflow, clamping twice is clamping once. *)
Theorem insideOf_idempotent (rect bounds : Rectangle) :
  small_rect rect -> small_rect bounds -> well_formed rect -> well_formed bounds ->
  insideOf (insideOf rect bounds) bounds = insideOf rect bounds.
Proof.
  intros Hr Hb Hwr Hwb. rewrite !insideOf_clamp.
  destruct rect as [[x0 y0] [x1 y1]], bounds as [[bx0 by0] [bx1 by1]].
  unfold small_rect, well_formed in *. cbn [X Y Min Max] in *.
  destruct Hr as (? & ? & ? & ?), Hb as (? & ? & ? & ?), Hwr, Hwb.
  cbv zeta. cbn [X Y Min Max].
  assert (Ex : forall c : Z * Z, (fst c, snd c) = c) by (now intros []).
  rewrite !Ex.
  rewrite (clamp_idempotent bx0 bx1 x0 x1), (clamp_idempotent by0 by1 y0 y1)
    by assumption.
  reflexivity.
Qed.

Lemma insideOf_idempotent_witness :
  insideOf (insideOf (mkRect (mkPoint 0 (-22)) (mkPoint 50 28)) (Bounds ex_wide))
           (Bounds ex_wide)
  = insideOf (mkRect (mkPoint 0 (-22)) (mkPoint 50 28)) (Bounds ex_wide).
Proof.
  apply (insideOf_idempotent (mkRect (mkPoint 0 (-22)) (mkPoint 50 28))
           (Bounds ex_wide)).
  - unfold small_rect, small. vm_compute. repeat split; discriminate.
  - unfold small_rect, small. vm_compute. repeat split; discriminate.
  - vm_compute. split; discriminate.
  - vm_compute. split; discriminate.
Defined.

(** ** More on [Above] *)

(** The order of [SFcompare] on finite numbers of one sign: exponents
    first, then mantissas. *)
Lemma ltb_leb_trans (x y z : float32) :
  F32.ltb x y = true -> F32.leb y z = true -> F32.ltb x z = true.
Proof.
  unfold F32.ltb, F32.leb, SFltb, SFleb.
  destruct x as [[] | [] | | [] mx ex], y as [[] | [] | | [] my ey],
    z as [[] | [] | | [] mz ez];
    cbn [SFcompare]; try discriminate; try reflexivity;
    change (Pos.compare_cont Eq ?a ?b) with (Pos.compare a b);
    destruct (Z.compare_spec ex ey), (Z.compare_spec ey ez), (Z.compare_spec ex ez);
    try discriminate; try reflexivity; try lia;
    destruct (Pos.compare_spec mx my), (Pos.compare_spec my mz),
      (Pos.compare_spec mx mz);
    cbn [CompOpp]; try discriminate; try reflexivity; lia.
Qed.

(** X6: [Above] never drops a detection whose score is NaN, and with a
    NaN threshold it drops nothing. *)
Theorem Above_keeps_nan :
  (forall (allDetections : list Detection) (threshold : float32) (d : Detection),
     In d allDetections -> F32.is_nan (Score d) = true ->
     In d (Above allDetections threshold)) /\
  (forall allDetections : list Detection, Above allDetections S754_nan = allDetections).
Proof.
  split.
  - intros l t d Hin Hnan. rewrite Above_filter. apply filter_In. split; [exact Hin |].
    destruct (Score d); try discriminate. reflexivity.
  - intros l. rewrite Above_filter. induction l as [| d l IH]; [reflexivity |].
    cbn [List.filter]. rewrite IH.
    replace (F32.ltb (Score d) S754_nan) with false; [reflexivity |].
    unfold F32.ltb, SFltb. now destruct (Score d) as [[] | [] | | [] ? ?].
Qed.

(** X7: [Above] returns a sublist of its argument, in the same order, and
    filtering again with the same threshold changes nothing. *)
Theorem Above_sublist_idempotent (allDetections : list Detection) (threshold : float32) :
  sublist (Above allDetections threshold) allDetections /\
  Above (Above allDetections threshold) threshold = Above allDetections threshold.
Proof.
  rewrite !Above_filter. split.
  - induction allDetections as [| d l IH]; [constructor |].
    cbn [List.filter]. destruct (negb _); now constructor.
  - induction allDetections as [| d l IH]; [reflexivity |].
    cbn [List.filter]. destruct (negb (F32.ltb (Score d) threshold)) eqn:E;
      [| exact IH].
    cbn [List.filter]. now rewrite E, IH.
Qed.

(** X8: raising the threshold can only remove detections: what survives a
    threshold survives every lower one.  In particular the detections
    [Extract] works on are among those of [ExtractLandmarks]. *)
Theorem Above_antitone (allDetections : list Detection) (low high : float32) :
  F32.leb low high = true ->
  sublist (Above allDetections high) (Above allDetections low).
Proof.
  intros Hle. rewrite !Above_filter.
  induction allDetections as [| d l IH]; [constructor |].
  cbn [List.filter].
  destruct (F32.ltb (Score d) low) eqn:Elow.
  - rewrite (ltb_leb_trans _ _ _ Elow Hle). exact IH.
  - cbn [negb]. destruct (F32.ltb (Score d) high); cbn [negb]; now constructor.
Qed.

Lemma Above_antitone_witness :
  sublist (Above [ex_detection; ex_faint_detection] threshold_Extract)
          (Above [ex_detection; ex_faint_detection] threshold_ExtractLandmarks).
Proof.
  apply (Above_antitone [ex_detection; ex_faint_detection]
           threshold_ExtractLandmarks threshold_Extract).
  vm_compute. reflexivity.
Defined.

(** ** More on [DistanceTo] *)

Lemma squared_difference_nan_or_sign (x y : float32) :
  F32.is_nan (squared_difference x y) = true \/
  has_sign false (squared_difference x y) = true.
Proof.
  unfold squared_difference.
  destruct (F32.is_nan (F32.sub x y)) eqn:E.
  - left. destruct (F32.sub x y); try discriminate. reflexivity.
  - right. now apply mul_self_sign.
Qed.

Lemma add_nan_or_sign (x y : float32) :
  F32.is_nan x = true \/ has_sign false x = true ->
  F32.is_nan y = true \/ has_sign false y = true ->
  F32.is_nan (F32.add x y) = true \/ has_sign false (F32.add x y) = true.
Proof.
  intros [Hx | Hx] [Hy | Hy].
  - left. destruct x; try discriminate. reflexivity.
  - left. destruct x; try discriminate. reflexivity.
  - left. destruct y; try discriminate. now destruct x.
  - right. now apply add_sign.
Qed.

Lemma sum_squares_nan_or_sign (d d2 : list float32) :
  forall sum : float32,
    F32.is_nan sum = true \/ has_sign false sum = true ->
    F32.is_nan (sum_squares sum d d2) = true \/
    has_sign false (sum_squares sum d d2) = true.
Proof.
  revert d2. induction d as [| x d IH]; intros [| y d2] sum Hs; try exact Hs.
  cbn [sum_squares]. apply IH, add_nan_or_sign; [exact Hs |].
  apply squared_difference_nan_or_sign.
Qed.

Lemma euclidean_nan_or_sign (a b : Descriptors) :
  F32.is_nan (euclidean a b) = true \/ has_sign false (euclidean a b) = true.
Proof.
  unfold euclidean. rewrite <- sum_squares_fold.
  destruct (sum_squares_nan_or_sign a b F32.zero (or_intror eq_refl)) as [Hs | Hs].
  - left. destruct (sum_squares F32.zero a b); try discriminate. reflexivity.
  - assert (H64 : has_sign false (F64.of_f32 (sum_squares F32.zero a b)) = true).
    { destruct (sum_squares F32.zero a b) as [[] | [] | | [] m e];
        try discriminate; try reflexivity.
      apply binary_normalize_pos_sign. }
    apply sqrt_sign in H64. right.
    destruct (F64.sqrt _) as [[] | [] | | [] m e]; try discriminate; try reflexivity.
    cbn [F64.to_f32 cond_Zopp]. apply binary_normalize_pos_sign.
Qed.

(** X9: whatever [DistanceTo] returns is NaN or carries a clear sign bit:
    a distance is never negative, and never the negative zero; so the
    test [distance < 0] is always false. *)
Theorem DistanceTo_never_negative (a b : Descriptors) (v : float32) (err : option error) :
  slice_ok a -> DistanceTo a b = Returned (v, err) ->
  (F32.is_nan v = true \/ has_sign false v = true) /\ F32.ltb v F32.zero = false.
Proof.
  intros Hok H.
  assert (Hv : F32.is_nan v = true \/ has_sign false v = true).
  { destruct (Nat.eq_dec (length a) (length b)) as [E | NE].
    - rewrite (DistanceTo_equal_length a b Hok E) in H. injection H as <- <-.
      apply euclidean_nan_or_sign.
    - rewrite (DistanceTo_unequal_length a b NE) in H. injection H as <- <-.
      right. reflexivity. }
  split; [exact Hv |].
  unfold F32.ltb, SFltb, F32.zero.
  destruct Hv as [Hv | Hv]; destruct v as [[] | [] | | [] m e];
    try discriminate; reflexivity.
Qed.

Lemma DistanceTo_never_negative_witness :
  (F32.is_nan (F32.of_int 5) = true \/ has_sign false (F32.of_int 5) = true) /\
  F32.ltb (F32.of_int 5) F32.zero = false.
Proof.
  apply (DistanceTo_never_negative [F32.zero; F32.zero; F32.zero] ex_descriptor
           (F32.of_int 5) None).
  - unfold slice_ok. vm_compute. discriminate.
  - vm_compute. reflexivity.
Defined.

(** ** More on [Extract] and [ExtractLandmarks] *)

Lemma processed_lengths {W : Type} (e : Extractor W) (img : Image)
    (detections : list Detection) (w w' : W)
    (images : list Image) (descrs : list Descriptors) :
  processed e img detections w images descrs w' ->
  length images = length descrs /\
  length images = length (List.filter (fun d => negb (too_small d)) detections).
Proof.
  induction 1 as [w | d rest w w' images descrs Hsmall Hp [IH1 IH2]
                  | d rest w w1 w2 w' l c2 de images descrs Hsmall HL HC HD Hp [IH1 IH2]];
    cbn [List.filter length].
  - split; reflexivity.
  - rewrite Hsmall. cbn [negb]. split; assumption.
  - rewrite Hsmall. cbn [negb length]. split; congruence.
Qed.

(** X10: a successful [Extract] returns as many crops as descriptors, one
    pair for each detection that passed the score threshold and the size
    test. *)
Theorem Extract_returns_pairs {W : Type} (e : Extractor W) (img : Image) (w w0 w' : W)
    (allDetections : list Detection) (images : list Image) (descrs : list Descriptors) :
  Detector e img w = ((allDetections, None), w0) ->
  Extract e img w = Returned ((images, descrs, None), w') ->
  length images = length descrs /\
  length images
  = length (List.filter (fun d => negb (too_small d))
              (Above allDetections threshold_Extract)).
Proof.
  intros HD. unfold Extract. rewrite HD. intros H.
  apply Extract_loop_processed in H. destruct H as (images1 & descrs1 & Hp & -> & ->).
  cbn [app]. now apply processed_lengths in Hp.
Qed.

Lemma ex_extractor_run (cropped2 : Image) :
  Center ex_landmarks (crop ex_full ex_detection) ex_full = Returned cropped2 ->
  Extract ex_extractor ex_full tt = Returned (([cropped2], [ex_descriptor], None), tt).
Proof.
  intros HC. unfold Extract. cbn [ex_extractor Detector].
  replace (Above [ex_detection] threshold_Extract) with [ex_detection]
    by (vm_compute; reflexivity).
  cbn [Extract_loop].
  replace (too_small ex_detection) with false by (vm_compute; reflexivity).
  cbn [ex_extractor Landmark Descriptor]. rewrite HC. reflexivity.
Qed.

Lemma Extract_returns_pairs_witness :
  length (match Center ex_landmarks (crop ex_full ex_detection) ex_full with
          | Returned cropped2 => [cropped2]
          | _ => []
          end)
  = length [ex_descriptor].
Proof.
  destruct (Center ex_landmarks (crop ex_full ex_detection) ex_full)
    as [cropped2 | |] eqn:HC; [| discriminate HC | discriminate HC].
  destruct (Extract_returns_pairs ex_extractor ex_full tt tt tt [ex_detection]
              [cropped2] [ex_descriptor] eq_refl (ex_extractor_run cropped2 HC))
    as [Hlen _].
  exact Hlen.
Defined.

Section ExtractLandmarksFacts.

Context {W : Type} (e : Extractor W) (img : Image).

Ltac landmarks_step d w :=
  cbn [ExtractLandmarks_loop];
  destruct (too_small d) eqn:Hsmall;
  [| destruct (Landmark e (crop img d) w) as [[lm [err |]] w1] eqn:HL;
     [| destruct lm as [l |];
        [destruct (PointsOnImage l (crop img d)) as [pts | |] eqn:HP; cbn [obind] |]]].

Lemma ExtractLandmarks_loop_error (detections : list Detection) :
  forall (ret0 : list (list Point)) (crops0 : list Image) (w : W)
         (ret : list (list Point)) (crops : list Image) (err : error) (w' : W),
    ExtractLandmarks_loop e img detections ret0 crops0 w
      = Returned ((ret, crops, Some err), w') ->
    ret = [] /\ crops = [] /\
    exists cause : error, err = Wrap cause "error detecting landmarks".
Proof.
  induction detections as [| d rest IH]; intros ret0 crops0 w ret crops err0 w' H.
  - discriminate.
  - revert H. landmarks_step d w; intros H; try discriminate; eauto.
    injection H as <- <- <- <-. eauto.
Qed.

Lemma ExtractLandmarks_loop_success (detections : list Detection) :
  forall (ret0 : list (list Point)) (crops0 : list Image) (w : W)
         (ret : list (list Point)) (crops : list Image) (w' : W),
    ExtractLandmarks_loop e img detections ret0 crops0 w
      = Returned ((ret, crops, None), w') ->
    exists (ret1 : list (list Point)) (crops1 : list Image),
      ret = ret0 ++ ret1 /\ crops = crops0 ++ crops1 /\
      crops1 = map (crop img) (List.filter (fun d => negb (too_small d)) detections) /\
      Forall2 (fun cropped points =>
                 exists landmarks : Landmarks,
                   PointsOnImage landmarks cropped = Returned points)
              crops1 ret1.
Proof.
  induction detections as [| d rest IH]; intros ret0 crops0 w ret crops w' H.
  - cbn [ExtractLandmarks_loop] in H. injection H as <- <- <-.
    exists [], []. rewrite !app_nil_r. repeat split. constructor.
  - revert H. cbn [List.filter]. landmarks_step d w; intros H; try discriminate.
    + cbn [negb]. eauto.
    + cbn [negb map].
      destruct (IH _ _ _ _ _ _ H) as (ret1 & crops1 & -> & -> & -> & HF).
      exists (pts :: ret1), (crop img d :: map (crop img)
                               (List.filter (fun d => negb (too_small d)) rest)).
      rewrite <- !app_assoc. repeat split. constructor; eauto.
Qed.

Lemma ExtractLandmarks_loop_app (pre rest : list Detection) :
  forall (ret0 : list (list Point)) (crops0 : list Image) (w : W)
         (ret1 : list (list Point)) (crops1 : list Image) (w_pre : W),
    ExtractLandmarks_loop e img pre ret0 crops0 w
      = Returned ((ret1, crops1, None), w_pre) ->
    ExtractLandmarks_loop e img (pre ++ rest) ret0 crops0 w
    = ExtractLandmarks_loop e img rest ret1 crops1 w_pre.
Proof.
  induction pre as [| d pre IH]; intros ret0 crops0 w ret1 crops1 w_pre H.
  - cbn [ExtractLandmarks_loop] in H. injection H as <- <- <-. reflexivity.
  - cbn [app]. revert H. landmarks_step d w; intros H; try discriminate; eauto.
Qed.

End ExtractLandmarksFacts.

(** X11: every crop returned by a successful [ExtractLandmarks] has the
    bounds of its detection's box, at least 45 pixels wide and high; the
    crops are those of the detections that passed the score threshold
    and the size test, in order, and there is one list of points for
    each crop. *)
Theorem ExtractLandmarks_crops_are_boxes {W : Type} (e : Extractor W) (img : Image)
    (w w0 w' : W) (allDetections : list Detection)
    (ret : list (list Point)) (crops : list Image) :
  Detector e img w = ((allDetections, None), w0) ->
  ExtractLandmarks e img w = Returned ((ret, crops, None), w') ->
  crops = map (crop img)
            (List.filter (fun d => negb (too_small d))
               (Above allDetections threshold_ExtractLandmarks)) /\
  length ret = length crops /\
  Forall (fun cropped =>
            exists d : Detection,
              In d allDetections /\ Bounds cropped = Box d /\
              45 <= Dx (Bounds cropped) /\ 45 <= Dy (Bounds cropped))
         crops.
Proof.
  intros HD. unfold ExtractLandmarks. rewrite HD.
  destruct (len (Above allDetections threshold_ExtractLandmarks) =? 0);
    [discriminate |].
  intros H. apply ExtractLandmarks_loop_success in H.
  destruct H as (ret1 & crops1 & -> & -> & Hc & HF). cbn [app].
  split; [exact Hc |]. split.
  - symmetry. eapply Forall2_length, HF.
  - rewrite Hc. apply List.Forall_forall. intros c Hin.
    apply in_map_iff in Hin. destruct Hin as (d & <- & Hd).
    apply filter_In in Hd. destruct Hd as [Hd Hbig].
    rewrite Above_filter in Hd. apply filter_In in Hd. destruct Hd as [Hd _].
    apply negb_true_iff, too_small_false in Hbig.
    exists d. cbn [crop draw.Draw Bounds NewRGBA]. tauto.
Qed.

Lemma ex_extractor_landmarks_run :
  ExtractLandmarks ex_extractor ex_full tt
  = Returned (([[mkPoint 25 25; mkPoint 50 50]], [crop ex_full ex_detection], None), tt).
Proof.
  unfold ExtractLandmarks. cbn [ex_extractor Detector].
  replace (Above [ex_detection] threshold_ExtractLandmarks) with [ex_detection]
    by (vm_compute; reflexivity).
  cbn [len length Z.of_nat Z.eqb ExtractLandmarks_loop].
  replace (too_small ex_detection) with false by (vm_compute; reflexivity).
  cbn [ex_extractor Landmark].
  replace (PointsOnImage ex_landmarks (crop ex_full ex_detection))
    with (Returned [mkPoint 25 25; mkPoint 50 50]) by (vm_compute; reflexivity).
  reflexivity.
Qed.

Lemma ExtractLandmarks_crops_are_boxes_witness :
  length [[mkPoint 25 25; mkPoint 50 50]] = length [crop ex_full ex_detection].
Proof.
  destruct (ExtractLandmarks_crops_are_boxes ex_extractor ex_full tt tt tt
              [ex_detection] [[mkPoint 25 25; mkPoint 50 50]]
              [crop ex_full ex_detection] eq_refl ex_extractor_landmarks_run)
    as (_ & Hlen & _).
  exact Hlen.
Defined.

(** X12: when [ExtractLandmarks] returns an error it returns nothing
    else, and the error is "no face detected" or a detector or landmark
    error under its message. *)
Theorem ExtractLandmarks_error_empty {W : Type} (e : Extractor W) (img : Image)
    (w w' : W) (ret : list (list Point)) (crops : list Image) (err : error) :
  ExtractLandmarks e img w = Returned ((ret, crops, Some err), w') ->
  ret = [] /\ crops = [] /\
  (err = New "no face detected" \/
   exists cause : error,
     err = Wrap cause "error detecting faces" \/
     err = Wrap cause "error detecting landmarks").
Proof.
  unfold ExtractLandmarks.
  destruct (Detector e img w) as [[allDetections [derr |]] w0]; intros H.
  - injection H as <- <- <- <-. repeat split. right. eauto.
  - destruct (len (Above allDetections threshold_ExtractLandmarks) =? 0).
    + injection H as <- <- <- <-. repeat split. now left.
    + destruct (ExtractLandmarks_loop_error e img _ _ _ _ _ _ _ _ H)
        as (-> & -> & cause & ->).
      repeat split. right. eauto.
Qed.

Lemma ExtractLandmarks_error_empty_witness :
  New "no face detected" = New "no face detected" \/
  exists cause : error,
    New "no face detected" = Wrap cause "error detecting faces" \/
    New "no face detected" = Wrap cause "error detecting landmarks".
Proof.
  destruct (ExtractLandmarks_error_empty ex_faint_extractor ex_full tt tt [] []
              (New "no face detected")) as (_ & _ & H).
  - vm_compute. reflexivity.
  - exact H.
Defined.

(** X13: a [Landmark] that answers a nil pointer without an error makes
    both entry points panic at the detection concerned (the nil pointer
    is dereferenced), the detections before it having gone through. *)
Theorem nil_landmarks_panic {W : Type} (e : Extractor W) (img : Image)
    (w w0 w1 w2 : W) (allDetections pre post : list Detection) (d : Detection) :
  Detector e img w = ((allDetections, None), w0) ->
  too_small d = false ->
  Landmark e (crop img d) w1 = ((None, None), w2) ->
  (forall (images1 : list Image) (descrs1 : list Descriptors),
     Above allDetections threshold_Extract = pre ++ d :: post ->
     Extract_loop e img pre [] [] w0 = Returned ((images1, descrs1, None), w1) ->
     Extract e img w = Panicked) /\
  (forall (ret1 : list (list Point)) (crops1 : list Image),
     Above allDetections threshold_ExtractLandmarks = pre ++ d :: post ->
     ExtractLandmarks_loop e img pre [] [] w0 = Returned ((ret1, crops1, None), w1) ->
     ExtractLandmarks e img w = Panicked).
Proof.
  intros HD Hbig HL. split.
  - intros images1 descrs1 Hsplit Hpre. unfold Extract. rewrite HD, Hsplit.
    rewrite (Extract_loop_app e img pre (d :: post) _ _ _ _ _ _ Hpre).
    cbn [Extract_loop]. now rewrite Hbig, HL.
  - intros ret1 crops1 Hsplit Hpre. unfold ExtractLandmarks. rewrite HD, Hsplit.
    replace (len (pre ++ d :: post) =? 0) with false.
    + rewrite (ExtractLandmarks_loop_app e img pre (d :: post) _ _ _ _ _ _ Hpre).
      cbn [ExtractLandmarks_loop]. now rewrite Hbig, HL.
    + symmetry. apply Z.eqb_neq. unfold len. rewrite length_app. cbn [length]. lia.
Qed.

Lemma nil_landmarks_panic_witness :
  Extract (mkExtractor unit
             (fun _ w => (([ex_detection], None), w))
             (fun _ w => ((None, None), w))
             (fun _ w => ((ex_descriptor, None), w)))
          ex_full tt
  = Panicked.
Proof.
  destruct (nil_landmarks_panic
              (mkExtractor unit
                 (fun _ w => (([ex_detection], None), w))
                 (fun _ w => ((None, None), w))
                 (fun _ w => ((ex_descriptor, None), w)))
              ex_full tt tt tt tt [ex_detection] [] [] ex_detection)
    as [H _].
  - reflexivity.
  - vm_compute. reflexivity.
  - reflexivity.
  - apply (H [] []); [vm_compute; reflexivity | reflexivity].
Defined.



(** ** Drawing *)

Lemma RGBA_Set_Bounds (img : Image) (x y : Z) (c : RGBA) :
  Bounds (RGBA_Set img x y c) = Bounds img.
Proof. unfold RGBA_Set. now destruct (PointIn _ _). Qed.

Lemma RGBA_Set_At (img : Image) (x y : Z) (c : RGBA) (x' y' : Z) :
  At (RGBA_Set img x y c) x' y'
  = if (x' =? x) && (y' =? y) && PointIn (mkPoint x' y') (Bounds img)
    then c else At img x' y'.
Proof.
  unfold RGBA_Set.
  destruct (Z.eqb_spec x' x) as [-> | Nx], (Z.eqb_spec y' y) as [-> | Ny];
    cbn [andb]; destruct (PointIn (mkPoint x y) (Bounds img)) eqn:E;
    cbn [At]; rewrite ?Z.eqb_refl; cbn [andb];
    try rewrite (proj2 (Z.eqb_neq _ _) Nx); try rewrite (proj2 (Z.eqb_neq _ _) Ny);
    cbn [andb]; rewrite ?andb_false_r; reflexivity.
Qed.

Ltac decide_ltb :=
  repeat match goal with
  | |- context [?a <? ?b] =>
      first [ replace (a <? b) with true by (symmetry; apply Z.ltb_lt; lia)
            | replace (a <? b) with false by (symmetry; apply Z.ltb_ge; lia) ]
  end.

Lemma drawPoint_unrolled (img : Image) (p : Point) :
  Int.min_int < X p < Int.max_int -> Int.min_int < Y p < Int.max_int ->
  drawPoint img p
  = Returned
      (RGBA_Set
         (RGBA_Set
            (RGBA_Set (RGBA_Set img (X p - 1) (Y p - 1) green) (X p - 1) (Y p) green)
            (X p) (Y p - 1) green)
         (X p) (Y p) green).
Proof.
  destruct p as [px py]. unfold drawPoint. cbn [X Y]. intros Hx Hy.
  change (Int.quo 3 2) with 1.
  replace (Int.add px 1) with (px + 1) by (symmetry; apply wrap_id; int_unfold; lia).
  replace (Int.add py 1) with (py + 1) by (symmetry; apply wrap_id; int_unfold; lia).
  replace (Int.sub px 1) with (px - 1) by (symmetry; apply wrap_id; int_unfold; lia).
  replace (Int.sub py 1) with (py - 1) by (symmetry; apply wrap_id; int_unfold; lia).
  assert (E1 : Int.add (px - 1) 1 = px)
    by (unfold Int.add; rewrite wrap_id by (int_unfold; lia); lia).
  assert (E3 : Int.add (py - 1) 1 = py)
    by (unfold Int.add; rewrite wrap_id by (int_unfold; lia); lia).
  assert (E2 : Int.add px 1 = px + 1) by (apply wrap_id; int_unfold; lia).
  assert (E4 : Int.add py 1 = py + 1) by (apply wrap_id; int_unfold; lia).
  cbn [for_loop obind]. rewrite ?E1, ?E2, ?E3, ?E4.
  decide_ltb. cbn [obind]. rewrite ?E1, ?E2, ?E3, ?E4. decide_ltb.
  cbn [obind]. rewrite ?E1, ?E2, ?E3, ?E4. decide_ltb.
  reflexivity.
Qed.


Lemma block_pixels (img : Image) (p : Point) (x y : Z) :
  At (RGBA_Set
        (RGBA_Set
           (RGBA_Set (RGBA_Set img (X p - 1) (Y p - 1) green) (X p - 1) (Y p) green)
           (X p) (Y p - 1) green)
        (X p) (Y p) green) x y
  = if in_block p x y && PointIn (mkPoint x y) (Bounds img)
    then green else At img x y.
Proof.
  rewrite !RGBA_Set_At, !RGBA_Set_Bounds. unfold in_block.
  destruct (PointIn (mkPoint x y) (Bounds img));
    rewrite ?andb_true_r, ?andb_false_r; [| reflexivity].
  destruct (Z.eqb_spec x (X p)), (Z.eqb_spec x (X p - 1)),
    (Z.eqb_spec y (Y p)), (Z.eqb_spec y (Y p - 1)),
    (Z.leb_spec (X p - 1) x), (Z.leb_spec x (X p)),
    (Z.leb_spec (Y p - 1) y), (Z.leb_spec y (Y p));
    cbn [andb]; try reflexivity; lia.
Qed.

(** X15: [drawPoint] paints the two-by-two block of pixels whose
    maximum corner is the point, as far as it lies inside the image, and
    leaves every other pixel and the bounds of the image as they are: the
    mark is not centred on the point, and nothing is drawn right of it or
    below it. *)
Theorem drawPoint_block (img : Image) (p : Point) :
  small (X p) -> small (Y p) ->
  exists out,
    drawPoint img p = Returned out /\
    Bounds out = Bounds img /\
    forall x y,
      At out x y
      = if in_block p x y && PointIn (mkPoint x y) (Bounds img)
        then green else At img x y.
Proof.
  unfold small. intros Hx Hy.
  rewrite (drawPoint_unrolled img p) by (int_unfold; lia).
  eexists. split; [reflexivity |].
  split; [now rewrite !RGBA_Set_Bounds |].
  apply block_pixels.
Qed.

Lemma drawPoint_block_witness :
  exists out,
    drawPoint ex_full (mkPoint 10 10) = Returned out /\
    Bounds out = Bounds ex_full /\
    forall x y,
      At out x y
      = if in_block (mkPoint 10 10) x y && PointIn (mkPoint x y) (Bounds ex_full)
        then green else At ex_full x y.
Proof.
  apply (drawPoint_block ex_full (mkPoint 10 10)); unfold small; cbn [X Y]; lia.
Defined.












(** ** Cropping keeps every pixel in its place *)

Lemma shift_back (x m : Z) : Int.in_range x -> Int.add (Int.sub x m) m = x.
Proof. intros H. int_solve. Qed.

Lemma Draw_from_Min (src : Image) (b : Rectangle) (x y : Z) :
  Int.in_range x -> Int.in_range y ->
  At (draw.Draw (NewRGBA b) b src (Min b)) x y
  = if PointIn (mkPoint x y) b && PointIn (mkPoint x y) (Bounds src)
    then At src x y else transparent.
Proof.
  intros Hx Hy. unfold draw.Draw, NewRGBA. cbn [At Bounds].
  rewrite (shift_back x _ Hx), (shift_back y _ Hy).
  destruct (PointIn (mkPoint x y) b); reflexivity.
Qed.

(** X18: The crop of a detection has the detection's box as its bounds
    and shows, at every position of the box that is also a position of
    the image, the pixel the image has at that same position; the rest of
    the box stays transparent. *)
Theorem crop_keeps_pixels (img : Image) (d : Detection) (x y : Z) :
  Int.in_range x -> Int.in_range y ->
  Bounds (crop img d) = Box d /\
  At (crop img d) x y
  = if PointIn (mkPoint x y) (Box d) && PointIn (mkPoint x y) (Bounds img)
    then At img x y else transparent.
Proof.
  intros Hx Hy. split; [reflexivity |].
  unfold crop. apply Draw_from_Min; assumption.
Qed.

Lemma crop_keeps_pixels_witness :
  Bounds (crop ex_full ex_detection) = Box ex_detection /\
  At (crop ex_full ex_detection) 10 20
  = if PointIn (mkPoint 10 20) (Box ex_detection)
       && PointIn (mkPoint 10 20) (Bounds ex_full)
    then At ex_full 10 20 else transparent.
Proof.
  apply (crop_keeps_pixels ex_full ex_detection 10 20); int_unfold; lia.
Defined.

(** X19: whenever [Center] returns, the image it returns has as bounds
    the rectangle [Center] computes from the points of the landmarks,
    [insideOf (square box) bounds] for the box its loop keeps, and its
    pixels are those of the full image at the same positions,
    transparent where the rectangle leaves the full image. *)
Theorem Center_keeps_pixels (l : Landmarks) (cropped full out : Image) :
  Center l cropped full = Returned out ->
  exists points,
    PointsOnImage l cropped = Returned points /\
    Bounds out = Center_rect points (Bounds full) /\
    forall x y, Int.in_range x -> Int.in_range y ->
      At out x y
      = if PointIn (mkPoint x y) (Bounds out) && PointIn (mkPoint x y) (Bounds full)
        then At full x y else transparent.
Proof.
  unfold Center.
  destruct (PointsOnImage l cropped) as [points | |]; cbn [obind];
    intros H; try discriminate.
  injection H as <-. exists points. split; [reflexivity |].
  split; [reflexivity |].
  intros x y Hx Hy. apply Draw_from_Min; assumption.
Qed.

Lemma Center_keeps_pixels_witness :
  match Center ex_landmarks ex_wide ex_full with
  | Returned out =>
      exists points,
        PointsOnImage ex_landmarks ex_wide = Returned points /\
        Bounds out = Center_rect points (Bounds ex_full) /\
        forall x y, Int.in_range x -> Int.in_range y ->
          At out x y
          = if PointIn (mkPoint x y) (Bounds out)
               && PointIn (mkPoint x y) (Bounds ex_full)
            then At ex_full x y else transparent
  | _ => False
  end.
Proof.
  destruct (Center ex_landmarks ex_wide ex_full) as [out | |] eqn:HC;
    [| discriminate HC | discriminate HC].
  exact (Center_keeps_pixels ex_landmarks ex_wide ex_full out HC).
Defined.

(** ** What the cache leaves alone *)

Section CacheFrame.

Variable json_Marshal : list string -> string * option error.
Variable json_Unmarshal : string -> list string * option error.

Context {C : Type}.

Lemma WriteFile_frame (path data : string) (f : FS) :
  (forall p, p <> path ->
     files (snd (WriteFile path data f)) !! p = files f !! p) /\
  (files (snd (WriteFile path data f)) !! path = files f !! path \/
   files (snd (WriteFile path data f)) !! path = Some data) /\
  dirs (snd (WriteFile path data f)) = dirs f.
Proof.
  unfold WriteFile.
  destruct (decide (dirname path ∈ dirs f /\ path ∉ dirs f)); cbn [snd files dirs].
  - split; [| split; [right; apply lookup_insert_eq | reflexivity]].
    intros p Hp. apply lookup_insert_ne. congruence.
  - auto.
Qed.

Lemma Mkdir_frame (path : string) (f : FS) :
  files (snd (Mkdir path f)) = files f /\
  dirs f ⊆ dirs (snd (Mkdir path f)) /\
  dirs (snd (Mkdir path f)) ⊆ {[ path ]} ∪ dirs f.
Proof.
  unfold Mkdir.
  destruct (decide (path ∈ dirs f \/ is_Some (files f !! path)));
    [| destruct (decide (dirname path ∈ dirs f))];
    cbn [snd files dirs]; (split; [reflexivity |]; split; first [reflexivity | apply union_subseteq_r]).
Qed.

Lemma saveCache_other_files (cacheDir cacheFile : string) (preds : list string)
    (f : FS) (p : string) :
  p <> cacheFile ->
  files (saveCache json_Marshal cacheDir cacheFile preds f) !! p = files f !! p.
Proof.
  intros Hp. unfold saveCache. destruct (json_Marshal preds) as [b [e |]];
    [reflexivity |].
  pose proof (WriteFile_frame cacheFile b f) as (W1 & _ & _).
  destruct (WriteFile cacheFile b f) as [[e1 |] f1] eqn:E1; cbn [snd] in W1;
    [| exact (W1 p Hp)].
  pose proof (Mkdir_frame cacheDir f1) as (M1 & _ & _).
  destruct (Mkdir cacheDir f1) as [[e2 |] f2]; cbn [snd] in M1.
  { rewrite M1. exact (W1 p Hp). }
  pose proof (WriteFile_frame cacheFile b f2) as (V1 & _ & _).
  destruct (WriteFile cacheFile b f2) as [[e3 |] f3]; cbn [snd] in V1;
    rewrite (V1 p Hp), M1; exact (W1 p Hp).
Qed.

(** X20: [saveCache] changes no file other than the cache file, which
    afterwards holds what it held before or the encoded predictions; it
    removes no directory and creates none but the cache directory. *)
Theorem saveCache_frame (cacheDir cacheFile : string) (preds : list string) (f : FS) :
  (forall p, p <> cacheFile ->
     files (saveCache json_Marshal cacheDir cacheFile preds f) !! p = files f !! p) /\
  (files (saveCache json_Marshal cacheDir cacheFile preds f) !! cacheFile
   = files f !! cacheFile \/
   files (saveCache json_Marshal cacheDir cacheFile preds f) !! cacheFile
   = Some (fst (json_Marshal preds))) /\
  dirs f ⊆ dirs (saveCache json_Marshal cacheDir cacheFile preds f) /\
  dirs (saveCache json_Marshal cacheDir cacheFile preds f) ⊆ {[ cacheDir ]} ∪ dirs f.
Proof.
  unfold saveCache. destruct (json_Marshal preds) as [b [e |]]; cbn [fst].
  { split; [reflexivity |]. split; [now left |]. split; first [reflexivity | apply union_subseteq_r]. }
  pose proof (WriteFile_frame cacheFile b f) as (W1 & W2 & W3).
  destruct (WriteFile cacheFile b f) as [[e1 |] f1] eqn:E1; cbn [snd] in *.
  2: { split; [exact W1 |]. split; [exact W2 |]. rewrite W3. split; first [reflexivity | apply union_subseteq_r]. }
  assert (Ef1 : f1 = f).
  { unfold WriteFile in E1.
    destruct (decide (dirname cacheFile ∈ dirs f /\ cacheFile ∉ dirs f));
      [discriminate E1 | now injection E1]. }
  subst f1.
  pose proof (Mkdir_frame cacheDir f) as (M1 & M2 & M3).
  destruct (Mkdir cacheDir f) as [[e2 |] f2] eqn:E2; cbn [snd] in *.
  { rewrite M1. split; [reflexivity |]. split; [now left |]. split; assumption. }
  pose proof (WriteFile_frame cacheFile b f2) as (V1 & V2 & V3).
  rewrite M1 in V1, V2. rewrite <- V3 in M2, M3.
  destruct (WriteFile cacheFile b f2) as [[e3 |] f3]; cbn [snd] in *;
    (split; [exact V1 |]; split; [exact V2 |]; split; assumption).
Qed.

(** X21: A call of [Inception] leaves every file other than the cache
    file of its key as it was, whatever the function returns: the entries
    of other keys and the inspected files themselves are never
    overwritten. *)
Theorem Inception_touches_one_file (l : LocalCache) (file : string)
    (inception : inception_fn) (w : World C) (path : string) :
  path <> cacheName (CacheDir l) file ->
  files (fs (snd (Inception json_Marshal json_Unmarshal l file inception w))) !! path
  = files (fs w) !! path.
Proof.
  intros Hp. unfold Inception.
  destruct (readCache json_Unmarshal _ (fs w)) as [preds [|]]; [reflexivity |].
  unfold invoke. destruct (inception (cst w)) as [[preds' [e |]] c'];
    cbn [snd fs]; [reflexivity |].
  apply saveCache_other_files, Hp.
Qed.

End CacheFrame.

Lemma Inception_touches_one_file_witness :
  files (fs (snd (Inception ex_Marshal ex_Unmarshal ex_cache "/photos/cat.jpg"
                    ex_inception (mkWorld ex_fs_ready 0%nat 0%nat))))
    !! "/photos/cat.jpg"%string
  = files (fs (mkWorld ex_fs_ready 0%nat 0%nat)) !! "/photos/cat.jpg"%string.
Proof.
  apply (Inception_touches_one_file ex_Marshal ex_Unmarshal ex_cache "/photos/cat.jpg"
           ex_inception (mkWorld ex_fs_ready 0%nat 0%nat) "/photos/cat.jpg").
  change (CacheDir ex_cache) with "/photos/.inception"%string.
  rewrite cacheName_cat. discriminate.
Defined.

(** ** The shape of a cache file name *)

Lemma hex_length (bytes : list Z) :
  String.length (hex bytes) = (2 * List.length bytes)%nat.
Proof.
  induction bytes as [| b rest IH]; [reflexivity |].
  cbn [hex String.length List.length]. rewrite IH. lia.
Qed.

Lemma Sum_length (msg : list Z) : List.length (sha1.Sum msg) = 20%nat.
Proof.
  unfold sha1.Sum.
  destruct (fold_left sha1.block _ sha1.init) as [[[[h0 h1] h2] h3] h4].
  reflexivity.
Qed.

(** X22: Whatever the key, its cache file lies directly in the cache
    directory, and its name there is forty hexadecimal digits and the
    extension: the path is 46 characters longer than the directory's,
    however long the key is. *)
Theorem cacheName_shape (cacheDir file : string) :
  cacheDir <> ""%string ->
  dirname (cacheName cacheDir file) = cacheDir /\
  String.length (cacheName cacheDir file) = (String.length cacheDir + 46)%nat.
Proof.
  intros Hne. split; [apply dirname_cacheName, Hne |].
  unfold cacheName. rewrite !string_length_app, hex_length, Sum_length.
  reflexivity.
Qed.

Lemma cacheName_shape_witness :
  dirname (cacheName "/photos/.inception" "/photos/cat.jpg") = "/photos/.inception"%string /\
  String.length (cacheName "/photos/.inception" "/photos/cat.jpg")
  = (String.length "/photos/.inception" + 46)%nat.
Proof.
  apply (cacheName_shape "/photos/.inception" "/photos/cat.jpg"). discriminate.
Defined.

(** ** Inspecting a folder *)

Lemma substring_suffix (a b : string) :
  substring (String.length a) (String.length b) (a +:+ b) = b.
Proof.
  induction a as [| c a IH].
  - change ("" +:+ b) with b. cbn [String.length].
    induction b as [| c b IHb]; [reflexivity |].
    cbn [String.length substring]. now rewrite IHb.
  - change (String c a +:+ b) with (String c (a +:+ b)).
    cbn [String.length substring]. exact IH.
Qed.

Lemma TrimSuffix_app (q suffix : string) : TrimSuffix (q +:+ suffix) suffix = q.
Proof.
  unfold TrimSuffix. rewrite string_length_app.
  replace (String.length q + String.length suffix - String.length suffix)%nat
    with (String.length q) by lia.
  rewrite substring_suffix, String.eqb_refl, substring_prefix.
  replace (String.length suffix <=? String.length q + String.length suffix)%nat
    with true by (symmetry; apply Nat.leb_le; lia).
  reflexivity.
Qed.

Section InspectFacts.

Variable json_Marshal : list string -> string * option error.
Variable json_Unmarshal : string -> list string * option error.
Variable Glob : string -> FS -> list string * option error.
Variable FromFile : string -> FS -> Image * option error.
Variable Predictions : Type.
Variable Prediction : Type.
Variable Above_threshold : Predictions -> list Prediction.
Variable Label : Prediction -> string.
Variable ToLower : string -> string.

Context {C : Type}.

Local Abbreviation loop :=
  (inspect_loop json_Marshal json_Unmarshal FromFile Predictions Prediction
     Above_threshold Label ToLower).
Local Abbreviation inspect :=
  (inspectFolder json_Marshal json_Unmarshal Glob FromFile Predictions Prediction
     Above_threshold Label ToLower).

Lemma fold_add_file (file p : string) (preds : list string) :
  forall objects : gmap string (list string),
    default [] (fold_left (add_file file) preds objects !! p)
    = default [] (objects !! p)
      ++ map (fun _ => file) (List.filter (String.eqb p) preds).
Proof.
  induction preds as [| q preds IH]; intros objects; cbn [fold_left List.filter map].
  - now rewrite app_nil_r.
  - rewrite IH. unfold add_file.
    destruct (String.eqb_spec p q) as [-> | Hne].
    + rewrite lookup_insert_eq. cbn [default map]. unfold id.
      now rewrite <- app_assoc.
    + rewrite lookup_insert_ne by congruence. reflexivity.
Qed.

Lemma inspect_loop_cache_only (l : LocalCache) (files : list string) :
  forall (objects : gmap string (list string)) (w : World C),
    fs (snd (loop (Some l) None files objects w)) = fs w /\
    cst (snd (loop (Some l) None files objects w)) = cst w /\
    forall p,
      default [] (fst (loop (Some l) None files objects w) !! p)
      = default [] (objects !! p)
        ++ flat_map
             (fun file =>
                map (fun _ => file)
                  (List.filter (String.eqb p)
                     (cached_labels json_Unmarshal FromFile l (fs w) file)))
             files.
Proof.
  induction files as [| file rest IH]; intros objects w.
  - cbn. repeat split. intros p. now rewrite app_nil_r.
  - cbn [inspect_loop flat_map]. unfold cached_labels at 1.
    destruct (FromFile file (fs w)) as [img [e |]]; cbn [snd].
    + destruct (IH objects w) as (H1 & H2 & H3).
      split; [exact H1 |]. split; [exact H2 |]. intros p. now rewrite H3.
    + unfold Inception.
      destruct (readCache json_Unmarshal (cacheName (CacheDir l) file) (fs w))
        as [preds [|]].
      * destruct (IH (fold_left (add_file file) preds objects) w) as (H1 & H2 & H3).
        split; [exact H1 |]. split; [exact H2 |]. intros p.
        rewrite H3, fold_add_file. now rewrite <- app_assoc.
      * unfold invoke, inception_for.
        destruct (IH objects (mkWorld (fs w) (cst w) (S (invocations w))))
          as (H1 & H2 & H3).
        cbn [fs cst] in *.
        split; [exact H1 |]. split; [exact H2 |]. intros p. now rewrite H3.
Qed.

(** X23: Without a classifier, [inspectFolder] only reads: the file
    system after the call is the one before it, a file that is not in the
    cache is passed over, and the error returned is nil.  Under each
    label the result lists, in the order of the folder listing, the files
    that open as images and whose cache entry holds the label, once for
    each time the entry holds it. *)
Theorem inspectFolder_only_from_cache (l : LocalCache) (folder : string)
    (w : World C) (files : list string) :
  Glob (folder +:+ "/*") (fs w) = (files, None) ->
  exists objects w',
    inspect (Some l) None folder w = ((objects, None), w') /\
    fs w' = fs w /\ cst w' = cst w /\
    forall p,
      default [] (objects !! p)
      = flat_map
          (fun file =>
             map (fun _ => file)
               (List.filter (String.eqb p)
                  (cached_labels json_Unmarshal FromFile l (fs w) file)))
          files.
Proof.
  intros HG. unfold inspectFolder. cbn [is_nil andb]. rewrite HG.
  destruct (inspect_loop_cache_only l files ∅ w) as (H1 & H2 & H3).
  destruct (loop (Some l) None files ∅ w) as [objects w'].
  exists objects, w'. cbn [fst snd] in *.
  split; [reflexivity |]. split; [exact H1 |]. split; [exact H2 |].
  intros p. rewrite H3, lookup_empty. reflexivity.
Qed.

Lemma inspect_loop_lists_files (cache : option LocalCache)
    (classifier : option (Classifier Predictions)) (files : list string) :
  forall (objects : gmap string (list string)) (w : World C) (p file : string),
    In file (default [] (fst (loop cache classifier files objects w) !! p)) ->
    In file (default [] (objects !! p)) \/ In file files.
Proof.
  induction files as [| f0 rest IH]; intros objects w p file Hin.
  - now left.
  - cbn [inspect_loop] in Hin.
    destruct (FromFile f0 (fs w)) as [img [e |]].
    { apply IH in Hin as [H | H]; [now left | right; now right]. }
    destruct (match cache with
              | Some l => Inception json_Marshal json_Unmarshal l f0 _ w
              | None => invoke _ w
              end) as [[preds [e |]] w1].
    { apply IH in Hin as [H | H]; [now left | right; now right]. }
    apply IH in Hin as [H | H]; [| right; now right].
    rewrite fold_add_file in H. apply in_app_or in H as [H | H]; [now left |].
    apply in_map_iff in H as (q & <- & _). right. now left.
Qed.

(** X24: [inspectFolder] returns an error in two cases only: when it is
    given neither a cache nor a classifier, and when the folder cannot be
    listed; a file that fails to open or to classify never fails the
    call.  Every file it lists under a label is a file of the folder
    listing. *)
Theorem inspectFolder_errors_and_files (cache : option LocalCache)
    (classifier : option (Classifier Predictions)) (folder : string) (w : World C) :
  (snd (fst (inspect cache classifier folder w)) <> None <->
   (cache = None /\ classifier = None) \/
   snd (Glob (folder +:+ "/*") (fs w)) <> None) /\
  forall p file,
    In file (default [] (fst (fst (inspect cache classifier folder w)) !! p)) ->
    In file (fst (Glob (folder +:+ "/*") (fs w))).
Proof.
  unfold inspectFolder.
  destruct (is_nil cache && is_nil classifier) eqn:Enil.
  - apply andb_prop in Enil as [E1 E2].
    destruct cache; [discriminate E1 |]. destruct classifier; [discriminate E2 |].
    cbn [fst snd]. split.
    + split; [intros _; left; split; reflexivity | discriminate].
    + intros p file H. rewrite lookup_empty in H. destruct H.
  - assert (Hsome : ~ (cache = None /\ classifier = None)).
    { intros [-> ->]. discriminate Enil. }
    destruct (Glob (folder +:+ "/*") (fs w)) as [files [e |]]; cbn [fst snd].
    + split.
      * split; [intros _; right; discriminate | discriminate].
      * intros p file H. rewrite lookup_empty in H. destruct H.
    + pose proof (inspect_loop_lists_files cache classifier files ∅ w) as Hl.
      destruct (loop cache classifier files ∅ w) as [objects w'].
      cbn [fst snd] in *. split.
      * split; [congruence | intros [H | H]; [tauto | congruence]].
      * intros p file H. apply Hl in H as [H | H]; [| exact H].
        rewrite lookup_empty in H. destruct H.
Qed.

(** X25: [find] drops the line end that closes the query as it is read
    from the console and looks up the lower-case form of what is left. *)
Theorem find_drops_line_end (objects : gmap string (list string)) (q : string) :
  find ToLower objects (q +:+ newline) = default [] (objects !! ToLower q).
Proof.
  unfold find. now rewrite TrimSuffix_app.
Qed.

End InspectFacts.

Lemma inspectFolder_only_from_cache_witness :
  exists objects w',
    inspectFolder ex_Marshal ex_Unmarshal ex_Glob ex_FromFile unit unit
      (fun _ => []) (fun _ => ""%string) (fun s => s)
      (Some ex_cache) None "/photos" (mkWorld ex_fs_cached tt 0%nat)
    = ((objects, None), w') /\
    fs w' = ex_fs_cached /\ cst w' = tt /\
    forall p,
      default [] (objects !! p)
      = flat_map
          (fun file =>
             map (fun _ => file)
               (List.filter (String.eqb p)
                  (cached_labels ex_Unmarshal ex_FromFile ex_cache ex_fs_cached file)))
          ["/photos/cat.jpg"%string].
Proof.
  apply (inspectFolder_only_from_cache ex_Marshal ex_Unmarshal ex_Glob ex_FromFile
           unit unit (fun _ => []) (fun _ => ""%string) (fun s => s)
           ex_cache "/photos" (mkWorld ex_fs_cached tt 0%nat)).
  reflexivity.
Defined.

(** The example folder, inspected from the cache alone. *)
Example inspectFolder_cat :
  fst (fst (inspectFolder ex_Marshal ex_Unmarshal ex_Glob ex_FromFile unit unit
              (fun _ => []) (fun _ => ""%string) (fun s => s)
              (Some ex_cache) None "/photos" (mkWorld ex_fs_cached tt 0%nat)))
    !! "tabby"%string
  = Some ["/photos/cat.jpg"%string].
Proof. vm_compute. reflexivity. Qed.

(** ** The faces returned by [Extract] are windows on the input *)

Lemma Center_window (l : Landmarks) (cropped full out : Image) (x y : Z) :
  Center l cropped full = Returned out ->
  Int.in_range x -> Int.in_range y ->
  At out x y
  = if PointIn (mkPoint x y) (Bounds out) && PointIn (mkPoint x y) (Bounds full)
    then At full x y else transparent.
Proof.
  unfold Center.
  destruct (PointsOnImage l cropped) as [points | |]; cbn [obind];
    intros H Hx Hy; try discriminate.
  injection H as <-. apply Draw_from_Min; assumption.
Qed.

(** X26: every image a successful [Extract] returns is a window on the
    input image in the input's own coordinates: inside its bounds it
    shows the input's pixel at the same position, and it is transparent
    where its bounds leave the input.  Nothing is scaled or moved, and
    the pixels come from the input itself, not from the crop given to
    [Landmark]. *)
Theorem Extract_images_are_windows {W : Type} (e : Extractor W) (img : Image)
    (w w' : W) (images : list Image) (descrs : list Descriptors) :
  Extract e img w = Returned ((images, descrs, None), w') ->
  Forall (fun cropped2 =>
            forall x y, Int.in_range x -> Int.in_range y ->
              At cropped2 x y
              = if PointIn (mkPoint x y) (Bounds cropped2)
                   && PointIn (mkPoint x y) (Bounds img)
                then At img x y else transparent)
         images.
Proof.
  unfold Extract.
  destruct (Detector e img w) as [[allDetections [err |]] w0]; [discriminate |].
  intros H.
  apply Extract_loop_processed in H. destruct H as (images1 & descrs1 & Hp & -> & ->).
  cbn [app]. apply processed_origin in Hp.
  induction Hp as [| d cropped2 ds ims (l & HC) _ IH]; constructor; [| exact IH].
  intros x y Hx Hy. exact (Center_window l (crop img d) img cropped2 x y HC Hx Hy).
Qed.

Lemma Extract_images_are_windows_witness :
  Forall (fun cropped2 =>
            forall x y, Int.in_range x -> Int.in_range y ->
              At cropped2 x y
              = if PointIn (mkPoint x y) (Bounds cropped2)
                   && PointIn (mkPoint x y) (Bounds ex_full)
                then At ex_full x y else transparent)
         (match Center ex_landmarks (crop ex_full ex_detection) ex_full with
          | Returned cropped2 => [cropped2]
          | _ => []
          end).
Proof.
  destruct (Center ex_landmarks (crop ex_full ex_detection) ex_full)
    as [cropped2 | |] eqn:HC; [| discriminate HC | discriminate HC].
  exact (Extract_images_are_windows ex_extractor ex_full tt tt [cropped2]
           [ex_descriptor] (ex_extractor_run cropped2 HC)).
Defined.
